(** * A link shortener on Koa and Redis: model of [server.js] and its properties

    The development embeds the request handlers of [server.js] as functions
    in a small state-and-exception monad.  The collaborators the handlers
    call are modelled next to them:

    - the Redis commands the handlers issue ([hexists], [hmset], [hset],
      [hget], [hincrby], [expire], [unlink]), on a store of hashes with an
      optional time to live per key;
    - [nanoid], which maps fresh random bytes to symbols of its URL-safe
      alphabet;
    - the router, which runs the matching layers in registration order, the
      [linkid] parameter check in front of every layer that has the
      parameter;
    - the framework's default error handler, which turns an exception
      carrying an HTTP status into that status and any other exception
      into 500;
    - the session middleware, which saves a session the handlers changed
      once they have returned, and saves nothing when they threw.

    The [URL] constructor of the platform is a parameter of the model, and
    so is the text [String] gives for the JavaScript number the client
    makes of an integer reply, which is only known to be the decimal
    rendering of the integer while the number holds it exactly. *)

From Stdlib Require Import ZArith NArith Ascii String List DecimalString DecimalZ Lia.
From stdpp Require Import base option gmap strings.

Local Open Scope string_scope.

(** ** JavaScript values and conversions

    Strings are sequences of one-byte characters, and [String.length]
    stands for [.length]. *)

Module JS.

(** Decimal rendering of an integer, [String(n)]. *)
Definition print_int (z : Z) : string := NilZero.string_of_int (Z.to_int z).

(** Strict decimal reading: a string is an integer exactly when it is the
    rendering of one (no sign [+], no leading zero, no blank). *)
Definition parse_int (s : string) : option Z :=
  match NilZero.int_of_string s with
  | Some d => let z := Z.of_int d in
              if String.eqb (print_int z) s then Some z else None
  | None => None
  end.

(** [Number.MAX_SAFE_INTEGER]: up to it, in absolute value, a number holds
    an integer exactly. *)
Definition MAX_SAFE_INTEGER : Z := 9007199254740991.

Definition safe_integer (z : Z) : bool :=
  ((- MAX_SAFE_INTEGER <=? z) && (z <=? MAX_SAFE_INTEGER))%Z.

(** The values a JSON body gives the [expire] member: a number, taken to
    be an integer that [String] renders in plain decimal, or a string. *)
Inductive value :=
| Num (z : Z)
| Str (s : string).

(** [if (v)] for a member that may be [undefined]. *)
Definition truthy (v : option value) : bool :=
  match v with
  | None => false
  | Some (Num z) => negb (z =? 0)%Z
  | Some (Str s) => negb (String.eqb s "")
  end.

(** [if (s)] for a string that may be [undefined] or [null]. *)
Definition truthy_string (s : option string) : bool :=
  match s with
  | None => false
  | Some s => negb (String.eqb s "")
  end.

(** [String(s)] for a string that may be [undefined]. *)
Definition to_string (s : option string) : string :=
  match s with
  | None => "undefined"
  | Some s => s
  end.

(** [s.substr(n)]. *)
Fixpoint substr (n : nat) (s : string) : string :=
  match n, s with
  | O, _ => s
  | S n, String _ s => substr n s
  | S _, EmptyString => EmptyString
  end.

(** The white space class [\s], on one-byte characters. *)
Definition is_space (c : ascii) : bool :=
  let n := nat_of_ascii c in
  ((9 <=? n)%nat && (n <=? 13)%nat) || (n =? 32)%nat || (n =? 160)%nat.

(** Canonical form of a character under the flag [i]: ASCII letters are
    compared in upper case.  No other character is equal to an ASCII letter
    under the flag, which is all a pattern of ASCII letters needs. *)
Definition canonicalize (c : ascii) : ascii :=
  let n := nat_of_ascii c in
  if ((97 <=? n)%nat && (n <=? 122)%nat)%bool then ascii_of_nat (n - 32) else c.

Definition eq_nocase (c d : ascii) : bool :=
  Ascii.eqb (canonicalize c) (canonicalize d).

Fixpoint upper (s : string) : string :=
  match s with
  | EmptyString => EmptyString
  | String c s => String (canonicalize c) (upper s)
  end.

(** The word class [\w]: ASCII letters, digits and the underscore. *)
Definition is_word (c : ascii) : bool :=
  let n := nat_of_ascii c in
  ((48 <=? n)%nat && (n <=? 57)%nat) || ((65 <=? n)%nat && (n <=? 90)%nat)
  || ((97 <=? n)%nat && (n <=? 122)%nat) || (n =? 95)%nat.

Fixpoint all_chars (p : ascii -> bool) (s : string) : bool :=
  match s with
  | EmptyString => true
  | String c s => p c && all_chars p s
  end.

End JS.

(** ** The client's encoding of command arguments *)

Module Ioredis.

(** [toArg]: [null] and [undefined] are sent as the empty string. *)
Definition toArg (s : option string) : string :=
  match s with
  | None => ""
  | Some s => s
  end.

(** A number is sent as its decimal rendering, a string as it is. *)
Definition toArg_value (v : JS.value) : string :=
  match v with
  | JS.Num z => JS.print_int z
  | JS.Str s => s
  end.

End Ioredis.

(** ** The store: Redis hashes with an optional time to live *)

Module Redis.

Record entry := Entry { fields : gmap string string; ttl : option Z }.

Abbreviation store := (gmap string entry).

(** A command replies with a value or with an error. *)
Inductive reply (A : Type) :=
| Ok (a : A)
| Err (message : string).
Arguments Ok {A} a.
Arguments Err {A} message.

Definition lookup_fields (key : string) (db : store) : gmap string string :=
  match db !! key with
  | Some e => fields e
  | None => ∅
  end.

Definition lookup_ttl (key : string) (db : store) : option Z :=
  match db !! key with
  | Some e => ttl e
  | None => None
  end.

(** The integers of the server are 64 bits wide and signed. *)
Definition LLONG_MAX : Z := 9223372036854775807.
Definition LLONG_MIN : Z := (-9223372036854775808)%Z.

(** [string2ll]: the strict decimal reading of an integer of that width;
    anything else, and any integer out of range, is not an integer. *)
Definition string2ll (s : string) : option Z :=
  match JS.parse_int s with
  | Some z => if ((LLONG_MIN <=? z) && (z <=? LLONG_MAX))%Z then Some z else None
  | None => None
  end.

(** HEXISTS key field: 1 when the hash has the field, 0 otherwise. *)
Definition hexists (key field : string) (db : store) : Z :=
  match lookup_fields key db !! field with
  | Some _ => 1%Z
  | None => 0%Z
  end.

(** HGET key field. *)
Definition hget (key field : string) (db : store) : option string :=
  lookup_fields key db !! field.

Definition set_fields (kvs : list (string * string)) (h : gmap string string)
  : gmap string string :=
  fold_left (fun h kv => <[fst kv := snd kv]> h) kvs h.

(** HMSET key field value [field value ...]: the key is created when it is
    absent, a time to live it has is kept. *)
Definition hmset (key : string) (kvs : list (string * string)) (db : store)
  : string * store :=
  ("OK", <[key := Entry (set_fields kvs (lookup_fields key db)) (lookup_ttl key db)]> db).

(** HSET key field value: replies with the number of fields added. *)
Definition hset (key field v : string) (db : store) : Z * store :=
  let h := lookup_fields key db in
  (match h !! field with Some _ => 0%Z | None => 1%Z end,
   <[key := Entry (<[field := v]> h) (lookup_ttl key db)]> db).

(** HINCRBY key field increment: an absent key is created and an absent
    field counts as 0; a field that is not an integer of the server's
    width is an error, and so is an increment that would leave that width.
    An error changes nothing. *)
Definition hincrby (key field : string) (incr : Z) (db : store)
  : reply Z * store :=
  let h := lookup_fields key db in
  match match h !! field with Some s => string2ll s | None => Some 0%Z end with
  | Some z =>
      if ((incr <? 0) && (z <? 0) && (incr <? LLONG_MIN - z)
          || (0 <? incr) && (0 <? z) && (LLONG_MAX - z <? incr))%Z
      then (Err "ERR increment or decrement would overflow", db)
      else
        let z' := (z + incr)%Z in
        (Ok z', <[key := Entry (<[field := JS.print_int z']> h) (lookup_ttl key db)]> db)
  | None => (Err "ERR hash value is not an integer", db)
  end.

(** The time of expiry is kept in milliseconds on the server's clock,
    [basetime] at the time of the command: a number of seconds whose
    conversion to milliseconds, or whose sum with the clock, leaves the
    server's width is refused. *)
Definition expire_time_overflows (basetime z : Z) : bool :=
  ((Z.quot LLONG_MAX 1000 <? z) || (z <? Z.quot LLONG_MIN 1000)
   || (LLONG_MAX - basetime <? z * 1000))%Z.

(** EXPIRE key seconds, at the time [basetime] of the server's clock: the
    argument is read and checked first; an absent key replies 0; a timeout
    that is not positive deletes the key at once. *)
Definition expire (basetime : Z) (key seconds : string) (db : store)
  : reply Z * store :=
  match string2ll seconds with
  | None => (Err "ERR value is not an integer or out of range", db)
  | Some z =>
      if expire_time_overflows basetime z
      then (Err "ERR invalid expire time in 'expire' command", db)
      else
        match db !! key with
        | None => (Ok 0%Z, db)
        | Some e =>
            if (z <=? 0)%Z then (Ok 1%Z, delete key db)
            else (Ok 1%Z, <[key := Entry (fields e) (Some z)]> db)
        end
  end.

(** UNLINK key: replies with the number of keys removed. *)
Definition unlink (key : string) (db : store) : Z * store :=
  match db !! key with
  | Some _ => (1%Z, delete key db)
  | None => (0%Z, db)
  end.

(** The passing of [seconds] of time: keys whose time to live has run out
    are removed by the store itself. *)
Definition elapse (seconds : Z) (db : store) : store :=
  omap (fun e =>
          match ttl e with
          | None => Some e
          | Some t => if (t <=? seconds)%Z then None
                      else Some (Entry (fields e) (Some (t - seconds)%Z))
          end) db.

Arguments hexists : simpl never.
Arguments hget : simpl never.
Arguments hmset : simpl never.
Arguments hset : simpl never.
Arguments hincrby : simpl never.
Arguments expire : simpl never.
Arguments unlink : simpl never.

End Redis.

(** ** Identifier generation *)

Module Nanoid.

(** The 64 URL-safe symbols identifiers are drawn from. *)
Definition urlAlphabet : string :=
  "useandom-26T198340PX75pxJACKVERYMINDBUSHWOLF_GQZbfghjklqvwyzrict".

(** [urlAlphabet[byte & 63]]. *)
Definition symbol (byte : N) : ascii :=
  match String.get (N.to_nat (N.land byte 63)) urlAlphabet with
  | Some c => c
  | None => "u"%char
  end.

(** [for (i = poolOffset - size; i < poolOffset; i++)
    id += urlAlphabet[pool[i] & 63]], on the [size] random bytes that start at position [pos] of the stream
    [random]: the symbols come in the order of the bytes. *)
Fixpoint generate (random : nat -> N) (pos size : nat) : string :=
  match size with
  | O => ""
  | S n => String (symbol (random pos)) (generate random (S pos) n)
  end.

(** Membership in the URL-safe alphabet: letters, digits, [_] and [-]. *)
Definition url_safe (c : ascii) : bool :=
  let n := nat_of_ascii c in
  ((48 <=? n)%nat && (n <=? 57)%nat) || ((65 <=? n)%nat && (n <=? 90)%nat)
  || ((97 <=? n)%nat && (n <=? 122)%nat) || (n =? 95)%nat || (n =? 45)%nat.

End Nanoid.

(** ** Requests, responses and the handler monad *)

(** The methods the server has handlers for. *)
Inductive method := GET | POST | PATCH | DELETE.

(** The path of a request as the router sees it: [/], one segment (the
    value of [:linkid]), or anything else. *)
Inductive path :=
| Root
| Link (linkid : string)
| Elsewhere.

(** [ctx.request.body], for the bodies whose [url] and [baseUrl] are
    strings when they are there and whose [expire] is a number or a
    string.  Bodies with other JSON values for these members are not
    covered. *)
Record body := Body {
  url : option string;
  baseUrl : option string;
  expire : option JS.value }.

Record request := Request {
  req_method : method;
  req_path : path;
  authorization : string;      (* ctx.get("Authorization"), empty when absent *)
  req_body : body;
  session : option string;     (* the token of the session the client came with *)
  date : string;               (* new Date(), as the client sends it to the store *)
  clock : Z }.                 (* the clock of the store, in milliseconds *)

Inductive response :=
| Created (url : option string) (shortLink : string)
          (linkid : option string) (token : option string)   (* 201 *)
| MovedPermanently (location : string) (x_accessed : string) (* 301 *)
| Removed (removed : Z)                                      (* 200 *)
| Success                                                    (* 200 *)
| NotFound                                                   (* no layer answered *)
| Failed (status : nat).                                     (* error response *)

Definition status (r : response) : nat :=
  match r with
  | Created _ _ _ _ => 201
  | MovedPermanently _ _ => 301
  | Removed _ => 200
  | Success => 200
  | NotFound => 404
  | Failed s => s
  end.

(** What a handler can see and change: the session of the request, the
    store, and how many random bytes have been drawn. *)
Record state := State {
  session_token : option string;
  redis : Redis.store;
  rng : nat }.

Inductive exn :=
| HttpError (status : nat) (message : string)   (* ctx.assert *)
| TypeError (message : string)                  (* new URL *)
| ReplyError (message : string).                (* a rejected command *)

Inductive result (A : Type) :=
| Return (a : A)
| Throw (e : exn).
Arguments Return {A} a.
Arguments Throw {A} e.

Definition M (A : Type) : Type := state -> result A * state.

Definition ret {A} (a : A) : M A := fun s => (Return a, s).

Definition bind {A B} (m : M A) (k : A -> M B) : M B :=
  fun s => match m s with
           | (Return a, s') => k a s'
           | (Throw e, s') => (Throw e, s')
           end.

Definition throw {A} (e : exn) : M A := fun s => (Throw e, s).

Notation "x <- m ;; k" := (bind m (fun x => k))
  (at level 100, m at next level, right associativity).
Notation "m ;;; k" := (bind m (fun _ => k))
  (at level 100, right associativity).

(** [ctx.assert(cond, status, message)] *)
Definition assert (cond : bool) (status : nat) (message : string) : M unit :=
  if cond then ret tt else throw (HttpError status message).

(** A command whose reply is a value. *)
Definition command {A} (c : Redis.store -> A * Redis.store) : M A :=
  fun s => let (a, db) := c (redis s) in
           (Return a, State (session_token s) db (rng s)).

(** A read of the store. *)
Definition query {A} (q : Redis.store -> A) : M A :=
  fun s => (Return (q (redis s)), s).

(** An awaited command: an error reply rejects the promise. *)
Definition await {A} (c : Redis.store -> Redis.reply A * Redis.store) : M A :=
  fun s => match c (redis s) with
           | (Redis.Ok a, db) => (Return a, State (session_token s) db (rng s))
           | (Redis.Err m, db) => (Throw (ReplyError m), State (session_token s) db (rng s))
           end.

Definition get_session : M (option string) :=
  fun s => (Return (session_token s), s).

Definition set_session (t : string) : M unit :=
  fun s => (Return tt, State (Some t) (redis s) (rng s)).

Definition LINKID_LEN : nat := 7.

(** ** Sample parameters and data, for the concrete runs *)

Module Sample.

(** A stand-in for the URL constructor: absolute inputs are those with an
    http or https scheme, anything else is resolved against the base. *)
Definition absolute (s : string) : bool :=
  String.prefix "http://" s || String.prefix "https://" s.

Definition URL (input : string) (base : option string) : option string :=
  if absolute input then Some input
  else match base with
       | Some b => if absolute b then Some (b +:+ "/" +:+ input) else None
       | None => None
       end.

(** Random bytes that differ from draw to draw. *)
Definition random (i : nat) : N := N.of_nat (7 * i + 3).

(** Random bytes that repeat, so that every identifier drawn is the same. *)
Definition stuck (i : nat) : N := 0%N.

Definition port : string := "3000".

(** A stand-in for [String] on the number of an integer reply, exact on
    the integers a number holds exactly. *)
Definition String_of_reply (z : Z) : string := JS.print_int z.

(** The clock of the store at the requests of the runs, in milliseconds. *)
Definition basetime : Z := 1793664000000.

Definition empty : state := State None ∅ 0.

Definition TEST_LINK : string := "https://microsoft.com/byaka-buka".

(** The identifier and the token the first create draws from [random], and
    the state the create of [TEST_LINK] leaves. *)
Definition linkid : string := "5VDLfvt".

Definition token : string := "a60JYSGjze24xRU_hys-3pEBFgwum8".

Definition record (u t : string) : Redis.entry :=
  Redis.Entry
    (list_to_map [("url", u); ("baseUrl", "http://localhost:3000");
                  ("accessed", "0"); ("createdAt", "Tue Nov 03 2026");
                  ("token", t)])
    None.

Definition created : state :=
  State (Some token) {[ linkid := record TEST_LINK token ]} 37.

(** The same with [stuck]: every identifier drawn is [uuuuuuu]. *)
Definition taken : state :=
  State (Some "uuuuuuuuuuuuuuuuuuuuuuuuuuuuuu")
    {[ "uuuuuuu" := record TEST_LINK "uuuuuuuuuuuuuuuuuuuuuuuuuuuuuu" ]} 37.

(** The store of the first test with a second record in it, under another
    identifier and with another owner. *)
Definition other_linkid : string := "Abc_123".

Definition two_records : state :=
  State None
    (<[other_linkid := record "https://github.com/tinovyatkin" "another-owner-token"]>
       (redis created))
    37.

Definition post (u : string) (e : option JS.value) : request :=
  Request POST Root "" (Body (Some u) None e) None "Tue Nov 03 2026" basetime.

Definition get (linkid : string) : request :=
  Request GET (Link linkid) "" (Body None None None) None "Tue Nov 03 2026" basetime.

Definition remove (linkid auth : string) : request :=
  Request DELETE (Link linkid) auth (Body None None None) None "Tue Nov 03 2026"
    basetime.

Definition patch (linkid auth : string) (b : body) : request :=
  Request PATCH (Link linkid) auth b None "Tue Nov 03 2026" basetime.

End Sample.

(** ** The handlers of [server.js] *)

Section Server.

(** [new URL(input, base)]: the serialised URL, [None] when the constructor
    throws. *)
Variable URL : string -> option string -> option string.

(** The random bytes [nanoid] consumes, in the order they are drawn. *)
Variable random : nat -> N.

(** [ctx.app.context.port] *)
Variable port : string.

(** The empty string is not an absolute URL. *)
Hypothesis URL_empty : URL "" None = None.

(** [String(n)] for the number [n] the client makes of an integer reply. *)
Variable String_of_reply : Z -> string.

(** A number holds a safe integer exactly, and [String] renders it in
    plain decimal. *)
Hypothesis String_of_reply_safe :
  forall z : Z, JS.safe_integer z = true -> String_of_reply z = JS.print_int z.

Definition new_URL (input : string) (base : option string) : M string :=
  match URL input base with
  | Some href => ret href
  | None => throw (TypeError "Invalid URL")
  end.

Definition nanoid (size : nat) : M string :=
  fun s => (Return (Nanoid.generate random (rng s) size),
            State (session_token s) (redis s) (rng s + size)).

(** Matches [lit] at the head of [s] without regard to case and gives the
    rest of [s]. *)
Fixpoint literal_nocase (lit s : string) : option string :=
  match lit, s with
  | EmptyString, _ => Some s
  | String a lit, String c s =>
      if JS.eq_nocase a c then literal_nocase lit s else None
  | String _ _, EmptyString => None
  end.

(** [/^token\s\S+$/i.test(auth)] *)
Definition token_regex_test (auth : string) : bool :=
  match literal_nocase "token" auth with
  | Some (String c rest) =>
      JS.is_space c && negb (String.eqb rest "")
      && JS.all_chars (fun c => negb (JS.is_space c)) rest
  | _ => false
  end.

(** [router.all("*")]: the token of the session, from the session itself,
    from the Authorization header, or freshly made. *)
Definition all_star (req : request) : M unit :=
  token <- get_session;;
  if negb (JS.truthy_string token) then
    let auth := authorization req in
    if token_regex_test auth then set_session (JS.substr 6 auth)
    else (t <- nanoid 30;; set_session t)
  else ret tt.

(** [if (expire) await redis.expire(key, expire)], the statement
    [router.post("/")] and [router.patch("/:linkid")] share. *)
Definition if_expire (basetime : Z) (key : string) (expire : option JS.value)
  : M unit :=
  match expire with
  | Some seconds =>
      if JS.truthy expire
      then (_ <- await (Redis.expire basetime key (Ioredis.toArg_value seconds));;
            ret tt)
      else ret tt
  | None => ret tt
  end.

(** The loop of [router.post("/")] that looks for a free identifier.
    [remaining] is [10 - attempts]: a collision sets [linkid] to [undefined]
    and counts one attempt; the loop ends on the first identifier that is
    free or when [attempts] reaches 10, [linkid] being [undefined] then.
    (An identifier of [LINKID_LEN] symbols is never the empty string, so
    [!linkid] holds after a collision only.) *)
Fixpoint allocate (remaining : nat) : M (option string) :=
  match remaining with
  | O => ret None
  | S remaining =>
      linkid <- nanoid LINKID_LEN;;
      link <- query (Redis.hexists linkid "url");;
      if negb (link =? 0)%Z then allocate remaining
      else ret (Some linkid)
  end.

(** [router.post("/")].  The strings of the body are stored as they come;
    [createdAt] is the date of the request as the client renders it. *)
Definition post_root (req : request) : M response :=
  let url := url (req_body req) in
  let baseUrl := match baseUrl (req_body req) with
                 | Some b => b
                 | None => "http://localhost:" +:+ port
                 end in
  let expire := expire (req_body req) in
  _ <- new_URL (JS.to_string url) None;;
  token <- get_session;;
  linkid <- allocate 10;;
  res <- command (Redis.hmset (Ioredis.toArg linkid)
                    [("url", Ioredis.toArg url);
                     ("baseUrl", baseUrl);
                     ("accessed", JS.print_int 0);
                     ("createdAt", date req);
                     ("token", Ioredis.toArg token)]);;
  assert (String.eqb res "OK") 501
    ("Failed to set key " +:+ JS.to_string linkid +:+ " to Redis");;;
  if_expire (clock req) (Ioredis.toArg linkid) expire;;;
  shortLink <- new_URL (JS.to_string linkid) (Some baseUrl);;
  ret (Created url shortLink linkid token).

(** [router.param("linkid")] *)
Definition param_linkid (linkid : string) : M unit :=
  assert (String.length linkid =? LINKID_LEN)%nat 422 "Invalid link id".

(** [String(accessed)] for the reply to HINCRBY inside the transaction:
    the client hands an integer reply on as a number, and an error reply
    leaves [accessed] undefined. *)
Definition x_accessed (accessed : Redis.reply Z) : string :=
  match accessed with
  | Redis.Ok z => String_of_reply z
  | Redis.Err _ => "undefined"
  end.

(** [redis.multi().hincrby(linkid, "accessed", 1).hget(linkid, "url").exec()] *)
Definition multi_hincrby_hget (linkid : string) (db : Redis.store)
  : (Redis.reply Z * option string) * Redis.store :=
  let (accessed, db) := Redis.hincrby linkid "accessed" 1 db in
  ((accessed, Redis.hget linkid "url" db), db).

(** [router.get("/:linkid")].  The redirect is kept as its target,
    [fullUrl], and the count it reports; the way the framework writes the
    target into the Location header is not part of the model. *)
Definition get_linkid (linkid : string) : M response :=
  replies <- command (multi_hincrby_hget linkid);;
  let accessed := fst replies in
  let fullUrl := snd replies in
  assert (JS.truthy_string fullUrl) 404
    ("There is no " +:+ linkid +:+ " on this server");;;
  ret (MovedPermanently (JS.to_string fullUrl) (x_accessed accessed)).

(** [a === b] on a string that may be [null] and one that may be
    [undefined]. *)
Definition strict_eq (a b : option string) : bool :=
  match a, b with
  | Some x, Some y => String.eqb x y
  | _, _ => false
  end.

(** [router.all("/:linkid")] *)
Definition all_linkid (req : request) (linkid : string) : M unit :=
  match req_method req with
  | GET => ret tt
  | _ =>
      token <- query (Redis.hget linkid "token");;
      assert (JS.truthy_string token) 404
        ("There is no " +:+ linkid +:+ " on this server");;;
      sess <- get_session;;
      assert (strict_eq token sess) 401 "Invalid link update token"
  end.

(** [router.delete("/:linkid")] *)
Definition delete_linkid (linkid : string) : M response :=
  res <- command (Redis.unlink linkid);;
  ret (Removed res).

(** [router.patch("/:linkid")] *)
Definition patch_linkid (req : request) (linkid : string) : M response :=
  let url := url (req_body req) in
  let expire := expire (req_body req) in
  match url with
  | Some u =>
      if JS.truthy_string url
      then (_ <- new_URL u None;;
            _ <- command (Redis.hset linkid "url" u);; ret tt)
      else ret tt
  | None => ret tt
  end;;;
  if_expire (clock req) linkid expire;;;
  ret Success.

(** The router: the layers that match the path and the method run in the
    order they were registered, each one after the check of its [linkid]
    parameter; a layer that does not call [next] ends the chain. *)
Definition routes (req : request) : M response :=
  all_star req;;;
  match req_path req, req_method req with
  | Root, POST => post_root req
  | Link linkid, GET =>
      param_linkid linkid;;; get_linkid linkid
  | Link linkid, DELETE =>
      param_linkid linkid;;; all_linkid req linkid;;;
      param_linkid linkid;;; delete_linkid linkid
  | Link linkid, PATCH =>
      param_linkid linkid;;; all_linkid req linkid;;;
      param_linkid linkid;;; patch_linkid req linkid
  | Link linkid, POST =>
      param_linkid linkid;;; all_linkid req linkid;;; ret NotFound
  | _, _ => ret NotFound
  end.

(** The default error handler: the status of an HTTP error, 500 for any
    other exception. *)
Definition onerror (e : exn) : response :=
  match e with
  | HttpError status _ => Failed status
  | TypeError _ => Failed 500
  | ReplyError _ => Failed 500
  end.

(** The state a request starts in: the session the client came with, the
    store and the random bytes as the requests before left them. *)
Definition enter (req : request) (s : state) : state :=
  State (session req) (redis s) (rng s).

(** One request against the server: the session of the request is loaded,
    the router runs, and an exception becomes an error response.  The
    session token of the resulting state is what the session keeps: the
    token the handlers left when they returned, the token the client came
    with when they threw, the session being saved after the handlers
    only. *)
Definition serve (req : request) (s : state) : response * state :=
  match routes req (enter req s) with
  | (Return r, s') => (r, s')
  | (Throw e, s') => (onerror e, State (session req) (redis s') (rng s'))
  end.

(** Requests served one after the other. *)
Fixpoint serve_all (reqs : list request) (s : state) : list response * state :=
  match reqs with
  | [] => ([], s)
  | req :: reqs =>
      let (r, s) := serve req s in
      let (rs, s) := serve_all reqs s in
      (r :: rs, s)
  end.

(** *** Notions the properties are stated with *)

(** The token the request acts with: the session token once
    [router.all("*")] has run. *)
Definition bearer (req : request) (s : state) : option string :=
  session_token (snd (all_star req (enter req s))).

(** The shape the Authorization header is tested for, in words: the
    keyword [token] in any case, one white space, and a value that is not
    empty and has no white space. *)
Definition token_credential (auth value : string) : Prop :=
  exists (keyword : string) (space : ascii),
    auth = keyword +:+ String space value
    /\ JS.upper keyword = "TOKEN"
    /\ JS.is_space space = true
    /\ value <> ""
    /\ JS.all_chars (fun c => negb (JS.is_space c)) value = true.

(** The record under [linkid] belongs to the holder of [token]. *)
Definition owned_by (linkid token : string) (db : Redis.store) : Prop :=
  Redis.hget linkid "token" db = Some token /\ token <> "".

(** The identifier drawn at attempt [i] of the allocation loop, and whether
    it collides with a record of the store. *)
Definition candidate (s : state) (i : nat) : string :=
  Nanoid.generate random (rng s + LINKID_LEN * i) LINKID_LEN.

Definition collides (s : state) (i : nat) : bool :=
  negb (Redis.hexists (candidate s i) "url" (redis s) =? 0)%Z.

(** An [expire] value that leaves a new record in place: none, a falsy
    one, or a positive number of seconds. *)
Definition live_expire (e : option JS.value) : bool :=
  match e with
  | Some v =>
      negb (JS.truthy e)
      || match JS.parse_int (Ioredis.toArg_value v) with
         | Some z => (0 <? z)%Z
         | None => false
         end
  | None => true
  end.

(** An [expire] value the store accepts at the time [basetime] of its
    clock: a number of seconds of the server's width whose time of expiry
    is of that width too. *)
Definition accepted_seconds (basetime z : Z) : bool :=
  ((Redis.LLONG_MIN <=? z) && (z <=? Redis.LLONG_MAX))%Z
  && negb (Redis.expire_time_overflows basetime z).

(** An [expire] value that leaves a new record in place and that the store
    accepts at the time [basetime]: none, a falsy one, or a positive number
    of seconds it accepts. *)
Definition live_expire_at (basetime : Z) (e : option JS.value) : bool :=
  match e with
  | Some v =>
      negb (JS.truthy e)
      || match JS.parse_int (Ioredis.toArg_value v) with
         | Some z => (0 <? z)%Z && accepted_seconds basetime z
         | None => false
         end
  | None => true
  end.

(** An [expire] value the store rejects because it is not an integer. *)
Definition rejected_expire (e : option JS.value) : bool :=
  match e with
  | Some v =>
      JS.truthy e
      && match JS.parse_int (Ioredis.toArg_value v) with
         | Some _ => false
         | None => true
         end
  | None => false
  end.

(** A GET request for [linkid]. *)
Definition resolves (linkid : string) (req : request) : Prop :=
  req_method req = GET /\ req_path req = Link linkid.

(** The record a GET request leaves behind under an identifier that was
    absent. *)
Definition phantom : Redis.entry :=
  Redis.Entry {[ "accessed" := JS.print_int 1 ]} None.


(** *** Notions for the properties of whole requests *)

(** The state the layers that match a request run in: the one
    [router.all("*")] leaves. *)
Definition routed (req : request) (s : state) : state :=
  snd (all_star req (enter req s)).

(** The [baseUrl] of a create: the member of the body, or the origin of the
    server itself. *)
Definition base_url (req : request) : string :=
  match baseUrl (req_body req) with
  | Some b => b
  | None => "http://localhost:" +:+ port
  end.

(** The answer to a request whose layers end in [out]. *)
Definition respond (out : result response * state) : response * state :=
  match out with
  | (Return r, s) => (r, s)
  | (Throw e, s) => (onerror e, s)
  end.

(** The answer to a request whose layers end in [out], and what the
    session keeps of it: the session is not saved after an exception. *)
Definition answer (req : request) (out : result response * state)
  : response * state :=
  match out with
  | (Return r, s) => (r, s)
  | (Throw e, s) => (onerror e, State (session req) (redis s) (rng s))
  end.

(** A computation that leaves every key of the store but [key] as it was. *)
Definition only_at {A} (key : string) (m : M A) : Prop :=
  forall s k, k <> key -> redis (snd (m s)) !! k = redis s !! k.

(** A computation that leaves the store as it was. *)
Definition store_kept {A} (m : M A) : Prop :=
  forall s, redis (snd (m s)) = redis s.

(** A record as a create writes it: an owner's token and a url under an
    identifier that is not the empty key. *)
Definition record_of (linkid t u : string) (db : Redis.store) : Prop :=
  owned_by linkid t db /\ Redis.hget linkid "url" db = Some u /\ linkid <> "".

(** *** The earlier version of the server *)

(** [/^token\s\w+$/i.test(auth)], the test of the header before the value
    was widened to any run of characters that are not white space. *)
Definition legacy_token_regex_test (auth : string) : bool :=
  match literal_nocase "token" auth with
  | Some (String c rest) =>
      JS.is_space c && negb (String.eqb rest "")
      && JS.all_chars JS.is_word rest
  | _ => false
  end.

(** [router.delete("/:linkid")] before the checks moved to
    [router.param] and [router.all("/:linkid")]. *)
Definition legacy_delete_linkid (linkid : string) : M response :=
  assert (String.length linkid =? LINKID_LEN)%nat 422 "Invalid link id";;;
  token <- query (Redis.hget linkid "token");;
  sess <- get_session;;
  assert (strict_eq token sess) 401 "Invalid link delete token";;;
  res <- command (Redis.unlink linkid);;
  ret (Removed res).
(** ** Properties *)

(** *** Integers as the store keeps them *)

Lemma parse_print (z : Z) : JS.parse_int (JS.print_int z) = Some z.
Proof.
  unfold JS.parse_int, JS.print_int.
  rewrite NilZero.isi.
  - rewrite DecimalZ.of_to, String.eqb_refl. reflexivity.
  - destruct z; simpl; try discriminate.
    intros [= H]. exact (DecimalPos.Unsigned.to_uint_nonnil _ H).
  - destruct z; simpl; try discriminate.
    intros [= H]. exact (DecimalPos.Unsigned.to_uint_nonnil _ H).
Qed.

Lemma parse_int_canonical (s : string) (z : Z) :
  JS.parse_int s = Some z -> s = JS.print_int z.
Proof.
  unfold JS.parse_int.
  destruct (NilZero.int_of_string s) as [d|]; [|discriminate].
  simpl. destruct (String.eqb_spec (JS.print_int (Z.of_int d)) s) as [E|]; [|discriminate].
  intros [= <-]. symmetry. exact E.
Qed.

(** An integer of the server's width is read back from its rendering, and
    what the server reads as an integer is the rendering of one of that
    width. *)
Lemma string2ll_print (z : Z) :
  (Redis.LLONG_MIN <= z <= Redis.LLONG_MAX)%Z ->
  Redis.string2ll (JS.print_int z) = Some z.
Proof.
  intros H. unfold Redis.string2ll. rewrite parse_print.
  destruct (Z.leb_spec Redis.LLONG_MIN z); [|lia].
  destruct (Z.leb_spec z Redis.LLONG_MAX); [reflexivity|lia].
Qed.

Lemma string2ll_Some (s : string) (z : Z) :
  Redis.string2ll s = Some z ->
  JS.parse_int s = Some z /\ (Redis.LLONG_MIN <= z <= Redis.LLONG_MAX)%Z.
Proof.
  unfold Redis.string2ll. destruct (JS.parse_int s) as [z'|]; [|discriminate].
  destruct (Z.leb_spec Redis.LLONG_MIN z'); [|discriminate].
  destruct (Z.leb_spec z' Redis.LLONG_MAX); [|discriminate].
  intros [= <-]. auto.
Qed.

Lemma string2ll_None (s : string) :
  JS.parse_int s = None -> Redis.string2ll s = None.
Proof. unfold Redis.string2ll. now intros ->. Qed.

(** *** Identifiers *)

Lemma generate_length (pos size : nat) :
  String.length (Nanoid.generate random pos size) = size.
Proof.
  revert pos. induction size as [|n IH]; intros pos; simpl;
    [reflexivity | now rewrite IH].
Qed.

Lemma symbol_url_safe (byte : N) : Nanoid.url_safe (Nanoid.symbol byte) = true.
Proof.
  unfold Nanoid.symbol.
  assert (H : (N.to_nat (N.land byte 63) < 64)%nat).
  { assert (N.land byte 63 < 64)%N; [|lia].
    change 63%N with (N.ones 6). rewrite N.land_ones.
    apply N.mod_lt. discriminate. }
  revert H. generalize (N.to_nat (N.land byte 63)). intros n Hn.
  do 64 (destruct n as [|n]; [reflexivity|]). lia.
Qed.

Lemma generate_url_safe (pos size : nat) :
  JS.all_chars Nanoid.url_safe (Nanoid.generate random pos size) = true.
Proof.
  revert pos. induction size as [|n IH]; intros pos; simpl; [reflexivity|].
  now rewrite symbol_url_safe, IH.
Qed.

(** *** Steps of the handlers *)

Ltac monad_unfold :=
  unfold assert, command, query, await, get_session, set_session, new_URL,
    nanoid;
  unfold bind, ret, throw.

Lemma bind_return {A B} (m : M A) (k : A -> M B) (s s' : state) (a : A) :
  m s = (Return a, s') -> bind m k s = k a s'.
Proof. unfold bind. now intros ->. Qed.

Lemma bind_throw {A B} (m : M A) (k : A -> M B) (s s' : state) (e : exn) :
  m s = (Throw e, s') -> bind m k s = (Throw e, s').
Proof. unfold bind. now intros ->. Qed.

Lemma bind_ret {A B} (a : A) (k : A -> M B) (s : state) :
  bind (ret a) k s = k a s.
Proof. reflexivity. Qed.

Lemma bind_get_session {B} (k : option string -> M B) (s : state) :
  bind get_session k s = k (session_token s) s.
Proof. reflexivity. Qed.

(** The session middleware always hands over to the next layer and leaves
    the store alone. *)
Lemma all_star_returns (req : request) (s : state) :
  all_star req s = (Return tt, snd (all_star req s)).
Proof.
  unfold all_star. monad_unfold. simpl.
  destruct (JS.truthy_string (session_token s)); simpl; [reflexivity|].
  destruct (token_regex_test (authorization req)); reflexivity.
Qed.

Lemma all_star_redis (req : request) (s : state) :
  redis (snd (all_star req s)) = redis s.
Proof.
  unfold all_star. monad_unfold. simpl.
  destruct (JS.truthy_string (session_token s)); simpl; [reflexivity|].
  destruct (token_regex_test (authorization req)); reflexivity.
Qed.

(** The state a request is routed in. *)
Lemma routes_after_session (req : request) (s : state) :
  exists s0,
    all_star req (enter req s) = (Return tt, s0)
    /\ redis s0 = redis s
    /\ session_token s0 = bearer req s.
Proof.
  exists (snd (all_star req (enter req s))). split; [apply all_star_returns|].
  split; [now rewrite all_star_redis | reflexivity].
Qed.

Lemma param_linkid_ok (linkid : string) (s : state) :
  String.length linkid = LINKID_LEN -> param_linkid linkid s = (Return tt, s).
Proof.
  intros H. unfold param_linkid, assert. rewrite H, Nat.eqb_refl. reflexivity.
Qed.

Lemma param_linkid_malformed (linkid : string) (s : state) :
  String.length linkid <> LINKID_LEN ->
  param_linkid linkid s = (Throw (HttpError 422 "Invalid link id"), s).
Proof.
  intros H. unfold param_linkid, assert.
  destruct (Nat.eqb_spec (String.length linkid) LINKID_LEN); [contradiction|reflexivity].
Qed.

Lemma truthy_string_Some (t : string) : t <> "" -> JS.truthy_string (Some t) = true.
Proof.
  intros H. simpl. destruct (String.eqb_spec t ""); [contradiction|reflexivity].
Qed.

Lemma strict_eq_true (a b : option string) :
  strict_eq a b = true <-> exists t, a = Some t /\ b = Some t.
Proof.
  destruct a as [x|], b as [y|]; simpl; split; try discriminate;
    try (intros (t & [=] & [=]); fail).
  - intros H%String.eqb_eq. subst. eauto.
  - intros (t & [= ->] & [= ->]). apply String.eqb_refl.
Qed.

(** The token check lets the owner through. *)
Lemma all_linkid_owner (req : request) (linkid t : string) (s : state) :
  req_method req <> GET ->
  owned_by linkid t (redis s) ->
  session_token s = Some t ->
  all_linkid req linkid s = (Return tt, s).
Proof.
  intros Hm [Ht Hne] Hs. unfold all_linkid.
  destruct (req_method req); try contradiction;
    monad_unfold; simpl; rewrite Ht, (truthy_string_Some _ Hne); simpl;
    rewrite Hs; simpl; rewrite String.eqb_refl; reflexivity.
Qed.

(** It stops anyone else with 401. *)
Lemma all_linkid_stranger (req : request) (linkid t : string) (s : state) :
  req_method req <> GET ->
  owned_by linkid t (redis s) ->
  session_token s <> Some t ->
  all_linkid req linkid s = (Throw (HttpError 401 "Invalid link update token"), s).
Proof.
  intros Hm [Ht Hne] Hs. unfold all_linkid.
  assert (E : strict_eq (Some t) (session_token s) = false).
  { destruct (strict_eq (Some t) (session_token s)) eqn:E; [|reflexivity].
    apply strict_eq_true in E as (t' & [= <-] & E). contradiction. }
  destruct (req_method req); try contradiction;
    monad_unfold; cbv beta iota; rewrite Ht, (truthy_string_Some _ Hne);
    cbv beta iota; rewrite E; reflexivity.
Qed.

(** Without a token field under the identifier it answers 404. *)
Lemma all_linkid_absent (req : request) (linkid : string) (s : state) :
  req_method req <> GET ->
  Redis.hget linkid "token" (redis s) = None ->
  all_linkid req linkid s
  = (Throw (HttpError 404 ("There is no " +:+ linkid +:+ " on this server")), s).
Proof.
  intros Hm Ht. unfold all_linkid.
  destruct (req_method req); try contradiction;
    monad_unfold; simpl; rewrite Ht; reflexivity.
Qed.

Lemma hget_Some_lookup (key field v : string) (db : Redis.store) :
  Redis.hget key field db = Some v -> exists e, db !! key = Some e.
Proof.
  unfold Redis.hget, Redis.lookup_fields.
  destruct (db !! key) as [e|]; [eauto|]. rewrite lookup_empty. discriminate.
Qed.

Lemma hget_delete (key field : string) (db : Redis.store) :
  Redis.hget key field (delete key db) = None.
Proof.
  unfold Redis.hget, Redis.lookup_fields. rewrite lookup_delete_eq.
  apply lookup_empty.
Qed.

(** *** Whole requests *)

(** A DELETE by the owner removes the record. *)
Lemma serve_delete_owner (req : request) (s : state) (linkid t : string) :
  req_method req = DELETE -> req_path req = Link linkid ->
  String.length linkid = LINKID_LEN ->
  owned_by linkid t (redis s) ->
  bearer req s = Some t ->
  fst (serve req s) = Removed 1
  /\ redis (snd (serve req s)) = delete linkid (redis s).
Proof.
  intros Hm Hp Hlen Hown Hb.
  destruct (routes_after_session req s) as (s0 & Hs0 & Hdb & Htok).
  rewrite Hb in Htok. rewrite <- Hdb in Hown.
  destruct (hget_Some_lookup _ _ _ _ (proj1 Hown)) as [e He].
  unfold serve, routes. rewrite (bind_return _ _ _ _ _ Hs0), Hp, Hm.
  rewrite (bind_return _ _ _ _ _ (param_linkid_ok _ s0 Hlen)).
  rewrite (bind_return _ _ s0 s0 tt);
    [|apply (all_linkid_owner _ _ t); [rewrite Hm; discriminate|assumption..]].
  rewrite (bind_return _ _ _ _ _ (param_linkid_ok _ s0 Hlen)).
  unfold delete_linkid. monad_unfold. unfold Redis.unlink. rewrite He. simpl.
  now rewrite Hdb.
Qed.

(** A request for a record that is not there, other than a GET, is
    answered 404 and changes nothing. *)
Lemma serve_absent (req : request) (s : state) (linkid : string) :
  req_method req <> GET -> req_path req = Link linkid ->
  String.length linkid = LINKID_LEN ->
  Redis.hget linkid "token" (redis s) = None ->
  fst (serve req s) = Failed 404 /\ redis (snd (serve req s)) = redis s.
Proof.
  intros Hm Hp Hlen Hnone.
  destruct (routes_after_session req s) as (s0 & Hs0 & Hdb & _).
  rewrite <- Hdb in Hnone.
  pose proof (all_linkid_absent req linkid s0 Hm Hnone) as Ha.
  unfold serve, routes. rewrite (bind_return _ _ _ _ _ Hs0), Hp.
  destruct (req_method req) eqn:E; try contradiction;
    rewrite (bind_return _ _ _ _ _ (param_linkid_ok _ s0 Hlen));
    rewrite (bind_throw _ _ _ _ _ Ha); simpl; auto.
Qed.

(** A request that is not a GET, by someone who is not the owner, is
    answered 401 and changes nothing. *)
Lemma serve_stranger (req : request) (s : state) (linkid t : string) :
  req_method req <> GET -> req_path req = Link linkid ->
  String.length linkid = LINKID_LEN ->
  owned_by linkid t (redis s) ->
  bearer req s <> Some t ->
  fst (serve req s) = Failed 401 /\ redis (snd (serve req s)) = redis s.
Proof.
  intros Hm Hp Hlen Hown Hb.
  destruct (routes_after_session req s) as (s0 & Hs0 & Hdb & Htok).
  rewrite <- Htok in Hb. rewrite <- Hdb in Hown.
  pose proof (all_linkid_stranger req linkid t s0 Hm Hown Hb) as Ha.
  unfold serve, routes. rewrite (bind_return _ _ _ _ _ Hs0), Hp.
  destruct (req_method req) eqn:E; try contradiction;
    rewrite (bind_return _ _ _ _ _ (param_linkid_ok _ s0 Hlen));
    rewrite (bind_throw _ _ _ _ _ Ha); simpl; auto.
Qed.

(** The part of a PATCH request that comes after the checks. *)
Lemma serve_patch_owner (req : request) (s : state) (linkid t : string) :
  req_method req = PATCH -> req_path req = Link linkid ->
  String.length linkid = LINKID_LEN ->
  owned_by linkid t (redis s) ->
  bearer req s = Some t ->
  exists s0,
    redis s0 = redis s
    /\ serve req s = match patch_linkid req linkid s0 with
                     | (Return r, s') => (r, s')
                     | (Throw e, s') =>
                         (onerror e, State (session req) (redis s') (rng s'))
                     end.
Proof.
  intros Hm Hp Hlen Hown Hb.
  destruct (routes_after_session req s) as (s0 & Hs0 & Hdb & Htok).
  rewrite Hb in Htok. rewrite <- Hdb in Hown.
  exists s0. split; [assumption|].
  unfold serve, routes. rewrite (bind_return _ _ _ _ _ Hs0), Hp, Hm.
  rewrite (bind_return _ _ _ _ _ (param_linkid_ok _ s0 Hlen)).
  rewrite (bind_return _ _ s0 s0 tt);
    [|apply (all_linkid_owner _ _ t); [rewrite Hm; discriminate|assumption..]].
  rewrite (bind_return _ _ _ _ _ (param_linkid_ok _ s0 Hlen)).
  reflexivity.
Qed.

(** *** The allocation loop *)

Ltac state_eq := solve [reflexivity | do 2 f_equal; unfold LINKID_LEN; lia].

Lemma candidate_next (tok : option string) (s : state) (i : nat) :
  candidate (State tok (redis s) (rng s + LINKID_LEN)) i = candidate s (S i).
Proof. unfold candidate. simpl rng. f_equal. unfold LINKID_LEN. lia. Qed.

Lemma collides_next (tok : option string) (s : state) (i : nat) :
  collides (State tok (redis s) (rng s + LINKID_LEN)) i = collides s (S i).
Proof. unfold collides. now rewrite candidate_next. Qed.

Lemma allocate_step (n : nat) (s : state) :
  allocate (S n) s
  = if collides s 0
    then allocate n (State (session_token s) (redis s) (rng s + LINKID_LEN))
    else (Return (Some (candidate s 0)),
          State (session_token s) (redis s) (rng s + LINKID_LEN)).
Proof.
  unfold collides, candidate. rewrite Nat.mul_0_r, Nat.add_0_r.
  simpl allocate. monad_unfold. simpl.
  destruct (Redis.hexists _ "url" (redis s) =? 0)%Z; reflexivity.
Qed.

(** An identifier drawn is never the empty string: [!linkid] is false for
    it. *)
Lemma candidate_truthy (s : state) (i : nat) :
  JS.truthy_string (Some (candidate s i)) = true.
Proof. reflexivity. Qed.

(** When every one of [n] attempts collides the loop ends without an
    identifier. *)
Lemma allocate_exhausted (n : nat) (s : state) :
  (forall i, i < n -> collides s i = true) ->
  allocate n s
  = (Return None, State (session_token s) (redis s) (rng s + LINKID_LEN * n)).
Proof.
  revert s. induction n as [|n IH]; intros s H.
  - simpl. unfold ret. destruct s. simpl. state_eq.
  - rewrite allocate_step, (H 0) by lia. rewrite IH.
    + simpl. state_eq.
    + intros i Hi. rewrite collides_next. apply H. lia.
Qed.

(** The loop ends on the first attempt that does not collide. *)
Lemma allocate_free (n j : nat) (s : state) :
  j < n ->
  (forall i, i < j -> collides s i = true) ->
  collides s j = false ->
  allocate n s
  = (Return (Some (candidate s j)),
     State (session_token s) (redis s) (rng s + LINKID_LEN * S j)).
Proof.
  revert s j. induction n as [|n IH]; intros s j Hj Hbefore Hfree; [lia|].
  rewrite allocate_step. destruct j as [|j].
  - rewrite Hfree. state_eq.
  - rewrite (Hbefore 0) by lia.
    rewrite (IH _ j); [ | lia | | ].
    + rewrite candidate_next. simpl. state_eq.
    + intros i Hi. rewrite collides_next. apply Hbefore. lia.
    + now rewrite collides_next.
Qed.

(** The loop never throws, touches neither the session nor the store, and
    an identifier it gives has [LINKID_LEN] symbols. *)
Lemma allocate_returns (n : nat) (s : state) :
  exists r k,
    allocate n s = (Return r, State (session_token s) (redis s) (rng s + k))
    /\ forall l, r = Some l -> String.length l = LINKID_LEN.
Proof.
  revert s. induction n as [|n IH]; intros s.
  - exists None, 0. split; [|discriminate].
    simpl. unfold ret. destruct s. simpl. state_eq.
  - rewrite allocate_step. destruct (collides s 0).
    + destruct (IH (State (session_token s) (redis s) (rng s + LINKID_LEN)))
        as (r & k & E & Hr).
      exists r, (LINKID_LEN + k). split; [|assumption].
      rewrite E. simpl. state_eq.
    + exists (Some (candidate s 0)), LINKID_LEN. split; [reflexivity|].
      intros l [= <-]. apply generate_length.
Qed.

(** *** The store under the commands of a create and of a resolve *)

Lemma hget_insert (key field : string) (e : Redis.entry) (db : Redis.store) :
  Redis.hget key field (<[key := e]> db) = Redis.fields e !! field.
Proof. unfold Redis.hget, Redis.lookup_fields. now rewrite lookup_insert_eq. Qed.

(** The replies of EXPIRE: an error that changes nothing, or the reply to
    a number of seconds the server accepts. *)
Lemma expire_cases (basetime : Z) (key seconds : string) (db : Redis.store) :
  (exists m, Redis.expire basetime key seconds db = (Redis.Err m, db))
  \/ exists z,
       JS.parse_int seconds = Some z
       /\ accepted_seconds basetime z = true
       /\ Redis.expire basetime key seconds db
          = match db !! key with
            | None => (Redis.Ok 0%Z, db)
            | Some e =>
                if (z <=? 0)%Z then (Redis.Ok 1%Z, delete key db)
                else (Redis.Ok 1%Z, <[key := Redis.Entry (Redis.fields e) (Some z)]> db)
            end.
Proof.
  unfold Redis.expire.
  destruct (Redis.string2ll seconds) as [z|] eqn:E; [|left; eauto].
  destruct (Redis.expire_time_overflows basetime z) eqn:Eo; [left; eauto|].
  right. exists z. apply string2ll_Some in E as [E [H1 H2]].
  split; [assumption|]. split; [|reflexivity].
  unfold accepted_seconds. rewrite Eo.
  destruct (Z.leb_spec Redis.LLONG_MIN z); [|lia].
  destruct (Z.leb_spec z Redis.LLONG_MAX); [reflexivity|lia].
Qed.

Lemma expire_accepted (basetime : Z) (key seconds : string) (z : Z)
    (db : Redis.store) :
  JS.parse_int seconds = Some z ->
  accepted_seconds basetime z = true ->
  Redis.expire basetime key seconds db
  = match db !! key with
    | None => (Redis.Ok 0%Z, db)
    | Some e =>
        if (z <=? 0)%Z then (Redis.Ok 1%Z, delete key db)
        else (Redis.Ok 1%Z, <[key := Redis.Entry (Redis.fields e) (Some z)]> db)
    end.
Proof.
  intros Hp Ha. unfold accepted_seconds in Ha.
  apply andb_prop in Ha as [Hr Ho]. apply andb_prop in Hr as [H1 H2].
  apply Z.leb_le in H1, H2. apply negb_true_iff in Ho.
  unfold Redis.expire, Redis.string2ll. rewrite Hp.
  destruct (Z.leb_spec Redis.LLONG_MIN z); [|lia].
  destruct (Z.leb_spec z Redis.LLONG_MAX); [|lia].
  cbn [andb]. now rewrite Ho.
Qed.

(** A positive number of seconds, when the reply is not an error, leaves
    the fields of the hash as they were. *)
Lemma hget_expire_live (basetime : Z) (key field seconds : string) (z n : Z)
    (db db' : Redis.store) :
  JS.parse_int seconds = Some z -> (0 < z)%Z ->
  Redis.expire basetime key seconds db = (Redis.Ok n, db') ->
  Redis.hget key field db' = Redis.hget key field db.
Proof.
  intros Hp Hz. destruct (expire_cases basetime key seconds db)
    as [[m ->]|(z' & Hp' & _ & ->)]; [discriminate|].
  rewrite Hp in Hp'. injection Hp' as <-.
  destruct (db !! key) as [e|] eqn:E; [|now intros [= _ <-]].
  destruct (Z.leb_spec z 0); [lia|]. intros [= _ <-].
  rewrite hget_insert. unfold Redis.hget, Redis.lookup_fields.
  now rewrite E.
Qed.

(** An increment by one fits below the largest integer of the server. *)
Lemma increment_fits (n : Z) :
  (n < Redis.LLONG_MAX)%Z ->
  ((1 <? 0) && (n <? 0) && (1 <? Redis.LLONG_MIN - n)
   || (0 <? 1) && (0 <? n) && (Redis.LLONG_MAX - n <? 1))%Z = false.
Proof.
  intros H. destruct (Z.ltb_spec (Redis.LLONG_MAX - n) 1); [lia|].
  now rewrite andb_false_r.
Qed.

(** A resolve of a record whose counter reads [n], short of the largest
    integer of the server. *)
Lemma multi_hincrby_hget_record (linkid u : string) (n : Z) (db : Redis.store) :
  (Redis.LLONG_MIN <= n < Redis.LLONG_MAX)%Z ->
  Redis.hget linkid "url" db = Some u ->
  Redis.hget linkid "accessed" db = Some (JS.print_int n) ->
  exists db',
    multi_hincrby_hget linkid db = ((Redis.Ok (n + 1)%Z, Some u), db')
    /\ Redis.hget linkid "url" db' = Some u
    /\ Redis.hget linkid "accessed" db' = Some (JS.print_int (n + 1)).
Proof.
  intros Hn Hu Ha. unfold multi_hincrby_hget, Redis.hincrby.
  unfold Redis.hget in Ha. rewrite Ha, string2ll_print by lia.
  rewrite increment_fits by lia.
  eexists. split; [|split].
  - rewrite hget_insert. simpl. rewrite lookup_insert_ne by discriminate.
    unfold Redis.hget in Hu. rewrite Hu. reflexivity.
  - rewrite hget_insert. simpl. rewrite lookup_insert_ne by discriminate.
    exact Hu.
  - rewrite hget_insert. simpl. now rewrite lookup_insert_eq.
Qed.

Lemma get_linkid_record (linkid u : string) (n : Z) (s : state) :
  (Redis.LLONG_MIN <= n < Redis.LLONG_MAX)%Z ->
  u <> "" ->
  Redis.hget linkid "url" (redis s) = Some u ->
  Redis.hget linkid "accessed" (redis s) = Some (JS.print_int n) ->
  exists s',
    get_linkid linkid s
    = (Return (MovedPermanently u (String_of_reply (n + 1))), s')
    /\ Redis.hget linkid "url" (redis s') = Some u
    /\ Redis.hget linkid "accessed" (redis s') = Some (JS.print_int (n + 1)).
Proof.
  intros Hn Hne Hu Ha.
  destruct (multi_hincrby_hget_record _ _ _ _ Hn Hu Ha) as (db' & E & Hu' & Ha').
  unfold get_linkid. monad_unfold. rewrite E. simpl.
  destruct (String.eqb_spec u ""); [contradiction|]. simpl.
  eexists. split; [reflexivity|]. simpl. auto.
Qed.

(** A GET request for such a record. *)
Lemma serve_get_record (req : request) (linkid u : string) (n : Z) (s : state) :
  resolves linkid req ->
  String.length linkid = LINKID_LEN ->
  (Redis.LLONG_MIN <= n < Redis.LLONG_MAX)%Z ->
  u <> "" ->
  Redis.hget linkid "url" (redis s) = Some u ->
  Redis.hget linkid "accessed" (redis s) = Some (JS.print_int n) ->
  fst (serve req s) = MovedPermanently u (String_of_reply (n + 1))
  /\ Redis.hget linkid "url" (redis (snd (serve req s))) = Some u
  /\ Redis.hget linkid "accessed" (redis (snd (serve req s)))
     = Some (JS.print_int (n + 1)).
Proof.
  intros [Hm Hp] Hlen Hn Hne Hu Ha.
  destruct (routes_after_session req s) as (s0 & Hs0 & Hdb & _).
  rewrite <- Hdb in Hu, Ha.
  destruct (get_linkid_record _ _ _ _ Hn Hne Hu Ha) as (s' & E & Hu' & Ha').
  unfold serve, routes. rewrite (bind_return _ _ _ _ _ Hs0), Hp, Hm.
  rewrite (bind_return _ _ _ _ _ (param_linkid_ok _ s0 Hlen)), E.
  simpl. auto.
Qed.

(** The safe integers are well inside the width of the server. *)
Lemma safe_integer_range (z : Z) :
  JS.safe_integer z = true <-> (- JS.MAX_SAFE_INTEGER <= z <= JS.MAX_SAFE_INTEGER)%Z.
Proof.
  unfold JS.safe_integer. rewrite andb_true_iff, !Z.leb_le. reflexivity.
Qed.

(** Sequential resolves count up from the counter of the record, as long
    as the count is a safe integer. *)
Lemma serve_all_gets (linkid u : string) (gets : list request) :
  String.length linkid = LINKID_LEN ->
  u <> "" ->
  Forall (resolves linkid) gets ->
  forall (n : nat) (s : state),
    (Z.of_nat (n + length gets) <= JS.MAX_SAFE_INTEGER)%Z ->
    Redis.hget linkid "url" (redis s) = Some u ->
    Redis.hget linkid "accessed" (redis s) = Some (JS.print_int (Z.of_nat n)) ->
    fst (serve_all gets s)
    = map (fun k => MovedPermanently u (JS.print_int (Z.of_nat k)))
        (seq (S n) (length gets)).
Proof.
  intros Hlen Hne Hall.
  induction Hall as [|g gets Hg _ IH]; intros n s Hn Hu Ha.
  - reflexivity.
  - simpl length in Hn.
    assert (Hs : (Z.of_nat n + 1 <= JS.MAX_SAFE_INTEGER)%Z) by lia.
    assert (Hw : (Redis.LLONG_MIN <= Z.of_nat n < Redis.LLONG_MAX)%Z).
    { unfold JS.MAX_SAFE_INTEGER in Hs.
      unfold Redis.LLONG_MIN, Redis.LLONG_MAX. lia. }
    destruct (serve_get_record g _ _ _ _ Hg Hlen Hw Hne Hu Ha) as (Hr & Hu' & Ha').
    rewrite String_of_reply_safe in Hr
      by (apply safe_integer_range; unfold JS.MAX_SAFE_INTEGER in *; lia).
    simpl serve_all. destruct (serve g s) as [r s1]. simpl in Hr, Hu', Ha'.
    replace (Z.of_nat n + 1)%Z with (Z.of_nat (S n)) in * by lia.
    assert (Hn' : (Z.of_nat (S n + length gets) <= JS.MAX_SAFE_INTEGER)%Z) by lia.
    specialize (IH (S n) s1 Hn' Hu' Ha').
    destruct (serve_all gets s1) as [rs s2]. simpl in IH. simpl.
    now rewrite Hr, IH.
Qed.

(** *** The expiry statement *)

(** The statement either returns, the session and the random bytes
    untouched, or throws the error of the store, nothing changed. *)
Lemma if_expire_cases (basetime : Z) (key : string) (e : option JS.value)
    (s : state) :
  (exists db, if_expire basetime key e s
              = (Return tt, State (session_token s) db (rng s)))
  \/ (exists m, if_expire basetime key e s = (Throw (ReplyError m), s)).
Proof.
  unfold if_expire.
  destruct e as [v|]; [|left; exists (redis s); destruct s; reflexivity].
  destruct (JS.truthy (Some v));
    [|left; exists (redis s); destruct s; reflexivity].
  monad_unfold.
  destruct (expire_cases basetime key (Ioredis.toArg_value v) (redis s))
    as [[m ->]|(z & _ & _ & ->)].
  - right. exists m. destruct s. reflexivity.
  - left. destruct (redis s !! key); [destruct (z <=? 0)%Z|]; eauto.
Qed.

(** With a value that leaves the record in place, the statement, when it
    returns, has kept the fields of the record. *)
Lemma if_expire_live (basetime : Z) (key : string) (e : option JS.value)
    (s s' : state) :
  live_expire e = true ->
  if_expire basetime key e s = (Return tt, s') ->
  exists db,
    s' = State (session_token s) db (rng s)
    /\ forall field, Redis.hget key field db = Redis.hget key field (redis s).
Proof.
  intros Hlive. unfold if_expire.
  destruct e as [v|];
    [|intros [= <-]; exists (redis s); destruct s; split; reflexivity].
  unfold live_expire in Hlive.
  destruct (JS.truthy (Some v));
    [|intros [= <-]; exists (redis s); destruct s; split; reflexivity].
  simpl in Hlive.
  destruct (JS.parse_int (Ioredis.toArg_value v)) as [z|] eqn:Ep; [|discriminate].
  apply Z.ltb_lt in Hlive. monad_unfold.
  destruct (Redis.expire basetime key (Ioredis.toArg_value v) (redis s))
    as [[n|m] db] eqn:Ee; [|discriminate].
  intros [= <-]. exists db. split; [reflexivity|].
  intros field. exact (hget_expire_live _ _ field _ _ _ _ _ Ep Hlive Ee).
Qed.

(** With one the store accepts as well, it returns. *)
Lemma if_expire_live_at (basetime : Z) (key : string) (e : option JS.value)
    (s : state) :
  live_expire_at basetime e = true ->
  exists db,
    if_expire basetime key e s = (Return tt, State (session_token s) db (rng s))
    /\ forall field, Redis.hget key field db = Redis.hget key field (redis s).
Proof.
  intros Hlive.
  assert (Hl : live_expire e = true).
  { unfold live_expire_at in Hlive. unfold live_expire.
    destruct e as [v|]; [|reflexivity].
    destruct (negb (JS.truthy (Some v))); [reflexivity|]. simpl in *.
    destruct (JS.parse_int (Ioredis.toArg_value v)); [|discriminate].
    now apply andb_prop in Hlive as [-> _]. }
  destruct (if_expire_cases basetime key e s) as [[db E]|[m E]].
  - exists db. split; [assumption|].
    destruct (if_expire_live _ _ _ _ _ Hl E) as (db' & [= <-] & H). exact H.
  - exfalso. revert E. unfold if_expire, live_expire_at in *.
    destruct e as [v|]; [|discriminate].
    destruct (JS.truthy (Some v)); [|discriminate]. simpl in Hlive.
    destruct (JS.parse_int (Ioredis.toArg_value v)) as [z|] eqn:Ep; [|discriminate].
    apply andb_prop in Hlive as [_ Ha]. monad_unfold.
    rewrite (expire_accepted _ _ _ _ _ Ep Ha).
    destruct (redis s !! key); [destruct (z <=? 0)%Z|]; discriminate.
Qed.

Lemma if_expire_rejected (basetime : Z) (key : string) (e : option JS.value)
    (s : state) :
  rejected_expire e = true ->
  exists m, if_expire basetime key e s = (Throw (ReplyError m), s).
Proof.
  unfold rejected_expire, if_expire. destruct e as [v|]; [|discriminate].
  destruct (JS.truthy (Some v)); [|discriminate]. simpl.
  destruct (JS.parse_int (Ioredis.toArg_value v)) eqn:Ep; [discriminate|].
  intros _. monad_unfold. unfold Redis.expire.
  rewrite (string2ll_None _ Ep).
  destruct s. eexists. reflexivity.
Qed.

Lemma if_expire_none (basetime : Z) (key : string) (s : state) :
  if_expire basetime key None s = (Return tt, s).
Proof. reflexivity. Qed.

(** *** A create *)

(** What a create that answers 201 with an identifier has written. *)
Lemma post_root_created (req : request) (s s1 : state) (u sl l : string)
    (tok : option string) :
  live_expire (expire (req_body req)) = true ->
  post_root req s = (Return (Created (Some u) sl (Some l) tok), s1) ->
  String.length l = LINKID_LEN
  /\ URL u None <> None
  /\ Redis.hget l "url" (redis s1) = Some u
  /\ Redis.hget l "accessed" (redis s1) = Some (JS.print_int 0).
Proof.
  intros Hlive. unfold post_root.
  unfold new_URL at 1.
  destruct (URL (JS.to_string (url (req_body req))) None) eqn:EU;
    [|unfold bind, throw; discriminate].
  rewrite bind_ret, bind_get_session.
  destruct (allocate_returns 10 s) as (r & k & Ea & Hr).
  rewrite (bind_return _ _ _ _ _ Ea).
  unfold command at 1, Redis.hmset. unfold bind at 1. cbv beta iota.
  simpl redis. simpl session_token. simpl rng.
  rewrite String.eqb_refl. unfold assert at 1. unfold bind at 1, ret at 1.
  cbv beta iota.
  match goal with |- context [bind (if_expire ?b ?key ?e) _ ?st] =>
    destruct (if_expire_cases b key e st) as [[db Ee]|[m Ee]];
    [destruct (if_expire_live b key e st _ Hlive Ee) as (db' & [= <-] & Hdb)|]
  end;
    [rewrite (bind_return _ _ _ _ _ Ee)
    |rewrite (bind_throw _ _ _ _ _ Ee); discriminate].
  unfold new_URL.
  destruct (URL (JS.to_string r) _); [|unfold bind, throw; discriminate].
  unfold bind, ret. intros [= Hu _ -> _ <-]. simpl redis.
  rewrite Hu in EU. simpl in EU.
  split; [now apply Hr|]. split; [congruence|].
  rewrite !Hdb. simpl redis. rewrite !hget_insert. simpl Redis.fields.
  unfold Redis.set_fields. simpl fold_left.
  split.
  - do 4 (rewrite lookup_insert_ne by discriminate).
    rewrite lookup_insert_eq, Hu. reflexivity.
  - do 2 (rewrite lookup_insert_ne by discriminate).
    now rewrite lookup_insert_eq.
Qed.

(** A create goes through when the URL is valid, one of the ten attempts
    finds a free identifier, the store accepts the time to live, and the
    short link can be built: the request is answered 201 with the first
    free identifier. *)
Lemma post_root_allocates (req : request) (s : state) (j : nat) (href shortLink : string) :
  URL (JS.to_string (url (req_body req))) None = Some href ->
  j < 10 ->
  (forall i, i < j -> collides s i = true) ->
  collides s j = false ->
  live_expire_at (clock req) (expire (req_body req)) = true ->
  URL (candidate s j)
    (Some match baseUrl (req_body req) with
          | Some b => b
          | None => "http://localhost:" +:+ port
          end) = Some shortLink ->
  fst (post_root req s)
  = Return (Created (url (req_body req)) shortLink (Some (candidate s j))
              (session_token s)).
Proof.
  intros EU Hj Hbefore Hfree Hlive ES. unfold post_root.
  unfold new_URL at 1. rewrite EU, bind_ret, bind_get_session.
  rewrite (bind_return _ _ _ _ _ (allocate_free 10 j s Hj Hbefore Hfree)).
  unfold command at 1, Redis.hmset. unfold bind at 1. cbv beta iota.
  simpl redis. simpl session_token. simpl rng.
  rewrite String.eqb_refl. unfold assert at 1. unfold bind at 1, ret at 1.
  cbv beta iota.
  match goal with |- context [bind (if_expire ?b ?key ?e) _ ?st] =>
    destruct (if_expire_live_at b key e st Hlive) as (db & Ee & Hdb) end.
  rewrite (bind_return _ _ _ _ _ Ee).
  unfold new_URL. simpl JS.to_string. rewrite ES. reflexivity.
Qed.

(** When all ten attempts collide the handler goes on without an
    identifier: the record is written under the key the client sends for
    [undefined], and the request is answered 201. *)
Lemma post_root_exhausted (req : request) (s : state) (href shortLink : string) :
  URL (JS.to_string (url (req_body req))) None = Some href ->
  (forall i, i < 10 -> collides s i = true) ->
  expire (req_body req) = None ->
  URL "undefined"
    (Some match baseUrl (req_body req) with
          | Some b => b
          | None => "http://localhost:" +:+ port
          end) = Some shortLink ->
  exists s1,
    post_root req s
    = (Return (Created (url (req_body req)) shortLink None (session_token s)), s1)
    /\ Redis.hget "" "url" (redis s1) = Some (Ioredis.toArg (url (req_body req))).
Proof.
  intros EU Hall He ES. unfold post_root.
  unfold new_URL at 1. rewrite EU, bind_ret, bind_get_session.
  rewrite (bind_return _ _ _ _ _ (allocate_exhausted 10 s Hall)).
  unfold command at 1, Redis.hmset. unfold bind at 1. cbv beta iota.
  simpl redis. simpl session_token. simpl rng.
  rewrite String.eqb_refl. unfold assert at 1. unfold bind at 1, ret at 1.
  cbv beta iota. rewrite He.
  rewrite (bind_return _ _ _ _ _ (if_expire_none _ _ _)).
  unfold new_URL. simpl JS.to_string. rewrite ES.
  unfold bind, ret. eexists. split; [reflexivity|].
  simpl redis. simpl Ioredis.toArg at 1. rewrite hget_insert. simpl Redis.fields.
  unfold Redis.set_fields. simpl fold_left.
  do 4 (rewrite lookup_insert_ne by discriminate).
  now rewrite lookup_insert_eq.
Qed.

(** *** A resolve of an absent identifier *)

Lemma get_linkid_absent (linkid : string) (s : state) :
  redis s !! linkid = None ->
  get_linkid linkid s
  = (Throw (HttpError 404 ("There is no " +:+ linkid +:+ " on this server")),
     State (session_token s) (<[linkid := phantom]> (redis s)) (rng s)).
Proof.
  intros Hnone. unfold get_linkid. monad_unfold.
  unfold multi_hincrby_hget, Redis.hincrby.
  unfold Redis.lookup_fields, Redis.lookup_ttl. rewrite Hnone, lookup_empty.
  cbn [Z.ltb Z.compare andb orb].
  rewrite hget_insert. simpl Redis.fields.
  rewrite lookup_insert_ne by discriminate. rewrite lookup_empty.
  reflexivity.
Qed.

Lemma serve_get_absent (req : request) (s : state) (linkid : string) :
  resolves linkid req ->
  String.length linkid = LINKID_LEN ->
  redis s !! linkid = None ->
  fst (serve req s) = Failed 404
  /\ redis (snd (serve req s)) = <[linkid := phantom]> (redis s).
Proof.
  intros [Hm Hp] Hlen Hnone.
  destruct (routes_after_session req s) as (s0 & Hs0 & Hdb & _).
  rewrite <- Hdb in Hnone.
  unfold serve, routes. rewrite (bind_return _ _ _ _ _ Hs0), Hp, Hm.
  rewrite (bind_return _ _ _ _ _ (param_linkid_ok _ s0 Hlen)).
  rewrite (get_linkid_absent _ _ Hnone). simpl. now rewrite Hdb.
Qed.

(** *** The test of the Authorization header *)

(** A header that passes the test is the keyword, one white space and a
    value, and [substr(6)] is that value. *)
Lemma token_regex_test_credential (auth : string) :
  token_regex_test auth = true -> token_credential auth (JS.substr 6 auth).
Proof.
  unfold token_regex_test.
  destruct auth as [|c1 [|c2 [|c3 [|c4 [|c5 [|c6 rest]]]]]]; simpl;
    repeat match goal with
           | |- context [JS.eq_nocase ?a ?c] =>
               destruct (JS.eq_nocase a c) eqn:?; try discriminate
           end; try discriminate.
  intros H. apply andb_prop in H as [H Hall]. apply andb_prop in H as [Hsp Hne].
  exists (String c1 (String c2 (String c3 (String c4 (String c5 ""))))), c6.
  split; [reflexivity|]. split.
  { simpl.
    repeat match goal with
           | E : JS.eq_nocase _ _ = true |- _ =>
               unfold JS.eq_nocase in E; apply Ascii.eqb_eq in E; rewrite <- E;
               clear E
           end.
    reflexivity. }
  split; [assumption|]. split; [|assumption].
  intros ->. discriminate.
Qed.

(** Conversely every such header passes the test. *)
Lemma token_credential_regex_test (auth value : string) :
  token_credential auth value ->
  token_regex_test auth = true /\ JS.substr 6 auth = value.
Proof.
  intros (kw & sp & -> & Hup & Hsp & Hne & Hall).
  destruct kw as [|c1 [|c2 [|c3 [|c4 [|c5 [|c6 kw]]]]]]; try discriminate.
  simpl in Hup. injection Hup as H1 H2 H3 H4 H5.
  split; [|reflexivity].
  unfold token_regex_test. simpl. unfold JS.eq_nocase.
  rewrite H1, H2, H3, H4, H5. simpl. rewrite Hsp, Hall.
  destruct (String.eqb_spec value ""); [contradiction|reflexivity].
Qed.

(** ** The claims *)

(** C9: on every request the session middleware reuses the token the
    session carries; without one it adopts the value of an Authorization
    header of the form [token <value>], the keyword in any case; otherwise
    it mints a token of 30 random URL-safe symbols and attaches it to the
    session.  The store is not touched. *)
Theorem session_token_resolution (req : request) (s : state) :
  (JS.truthy_string (session_token s) = true ->
   all_star req s = (Return tt, s))
  /\ (JS.truthy_string (session_token s) = false ->
      token_regex_test (authorization req) = true ->
      exists value,
        token_credential (authorization req) value
        /\ all_star req s = (Return tt, State (Some value) (redis s) (rng s)))
  /\ (JS.truthy_string (session_token s) = false ->
      token_regex_test (authorization req) = false ->
      exists fresh,
        all_star req s = (Return tt, State (Some fresh) (redis s) (rng s + 30))
        /\ fresh = Nanoid.generate random (rng s) 30
        /\ String.length fresh = 30
        /\ JS.all_chars Nanoid.url_safe fresh = true).
Proof.
  unfold all_star. rewrite bind_get_session. repeat split.
  - intros ->. reflexivity.
  - intros -> Hre. rewrite Hre. simpl negb. cbv iota.
    exists (JS.substr 6 (authorization req)).
    split; [now apply token_regex_test_credential | reflexivity].
  - intros -> Hre. rewrite Hre. simpl negb. cbv iota.
    exists (Nanoid.generate random (rng s) 30).
    split; [reflexivity|]. split; [reflexivity|].
    split; [apply generate_length | apply generate_url_safe].
Qed.

(** C8, as the code has it: a request for an identifier that does not have
    exactly 7 characters is answered 422, whatever its method, and the store
    is left as it was. *)
Theorem malformed_length_rejected (req : request) (s : state) (linkid : string) :
  req_path req = Link linkid ->
  String.length linkid <> LINKID_LEN ->
  fst (serve req s) = Failed 422 /\ redis (snd (serve req s)) = redis s.
Proof.
  intros Hp Hlen.
  destruct (routes_after_session req s) as (s0 & Hs0 & Hdb & _).
  unfold serve, routes. rewrite (bind_return _ _ _ _ _ Hs0), Hp.
  destruct (req_method req);
    rewrite (bind_throw _ _ _ _ _ (param_linkid_malformed _ s0 Hlen));
    simpl; auto.
Qed.

(** C5, as the code has it: a create whose url is not accepted by the URL
    constructor ends in the exception the constructor throws, which is
    answered 500, and the store is left as it was. *)
Theorem post_invalid_url_fails (req : request) (s : state) :
  req_method req = POST -> req_path req = Root ->
  URL (JS.to_string (url (req_body req))) None = None ->
  fst (serve req s) = Failed 500 /\ redis (snd (serve req s)) = redis s.
Proof.
  intros Hm Hp HU.
  destruct (routes_after_session req s) as (s0 & Hs0 & Hdb & _).
  unfold serve, routes. rewrite (bind_return _ _ _ _ _ Hs0), Hp, Hm.
  unfold post_root, new_URL. rewrite HU. unfold bind, throw. simpl. auto.
Qed.

(** C6: a DELETE with a token other than the owner's is answered 401 and
    leaves the whole store as it was, so that a DELETE with the owner's
    token that follows is answered 200 with [removed: 1] and removes the
    record. *)
Theorem delete_stranger_refused (req again : request) (s : state) (linkid t : string) :
  req_method req = DELETE -> req_path req = Link linkid ->
  String.length linkid = LINKID_LEN ->
  owned_by linkid t (redis s) ->
  bearer req s <> Some t ->
  req_method again = DELETE -> req_path again = Link linkid ->
  bearer again (snd (serve req s)) = Some t ->
  fst (serve req s) = Failed 401
  /\ redis (snd (serve req s)) = redis s
  /\ fst (serve again (snd (serve req s))) = Removed 1
  /\ redis (snd (serve again (snd (serve req s)))) = delete linkid (redis s).
Proof.
  intros Hm Hp Hlen Hown Hb Hm' Hp' Hb'.
  assert (Hget : req_method req <> GET) by (rewrite Hm; discriminate).
  destruct (serve_stranger req s linkid t Hget Hp Hlen Hown Hb) as [Hr Hdb].
  rewrite <- Hdb in Hown.
  destruct (serve_delete_owner again _ linkid t Hm' Hp' Hlen Hown Hb') as [Hr' Hdb'].
  rewrite Hdb in Hdb'. auto.
Qed.

(** C4, as the code has it: a DELETE with the owner's token is answered 200
    with [removed: 1] and removes the record; a second DELETE of the same
    identifier finds no token under it and is answered 404, whatever token
    it comes with. *)
Theorem delete_then_not_found (req again : request) (s : state) (linkid t : string) :
  req_method req = DELETE -> req_path req = Link linkid ->
  String.length linkid = LINKID_LEN ->
  owned_by linkid t (redis s) ->
  bearer req s = Some t ->
  req_method again = DELETE -> req_path again = Link linkid ->
  fst (serve req s) = Removed 1
  /\ redis (snd (serve req s)) = delete linkid (redis s)
  /\ fst (serve again (snd (serve req s))) = Failed 404
  /\ redis (snd (serve again (snd (serve req s)))) = delete linkid (redis s).
Proof.
  intros Hm Hp Hlen Hown Hb Hm' Hp'.
  destruct (serve_delete_owner req s linkid t Hm Hp Hlen Hown Hb) as [Hr Hdb].
  assert (Hget : req_method again <> GET) by (rewrite Hm'; discriminate).
  destruct (serve_absent again (snd (serve req s)) linkid Hget Hp' Hlen) as [Hr' Hdb'].
  { rewrite Hdb. apply hget_delete. }
  rewrite Hdb in Hdb'. auto.
Qed.

(** C10: a PATCH by the owner whose body has neither [url] nor [expire] is
    answered 200 with the success body and leaves the whole store as it
    was: every field of the record and its time to live. *)
Theorem patch_nothing_changes (req : request) (s : state) (linkid t : string) :
  req_method req = PATCH -> req_path req = Link linkid ->
  String.length linkid = LINKID_LEN ->
  owned_by linkid t (redis s) ->
  bearer req s = Some t ->
  url (req_body req) = None ->
  expire (req_body req) = None ->
  fst (serve req s) = Success /\ redis (snd (serve req s)) = redis s.
Proof.
  intros Hm Hp Hlen Hown Hb Hu He.
  destruct (serve_patch_owner req s linkid t Hm Hp Hlen Hown Hb) as (s0 & Hdb & ->).
  unfold patch_linkid. rewrite Hu, He. simpl. auto.
Qed.

(** What becomes of a PATCH by the owner whose url is valid and whose
    expire value the store rejects: the request fails after the url has
    been replaced. *)
Lemma patch_rejected_expire_after_url (req : request) (s : state) (linkid t u : string) :
  req_method req = PATCH -> req_path req = Link linkid ->
  String.length linkid = LINKID_LEN ->
  owned_by linkid t (redis s) ->
  bearer req s = Some t ->
  url (req_body req) = Some u -> u <> "" ->
  URL u None <> None ->
  rejected_expire (expire (req_body req)) = true ->
  fst (serve req s) = Failed 500
  /\ redis (snd (serve req s)) = snd (Redis.hset linkid "url" u (redis s))
  /\ Redis.hget linkid "url" (redis (snd (serve req s))) = Some u.
Proof.
  intros Hm Hp Hlen Hown Hb Hu Hne HU Hrej.
  destruct (serve_patch_owner req s linkid t Hm Hp Hlen Hown Hb) as (s0 & Hdb & ->).
  unfold patch_linkid. rewrite Hu, (truthy_string_Some _ Hne).
  unfold new_URL. destruct (URL u None) as [href|]; [|contradiction].
  assert (E1 : (ret href;;; command (Redis.hset linkid "url" u);;; ret tt) s0
               = (Return tt,
                  State (session_token s0)
                    (snd (Redis.hset linkid "url" u (redis s0))) (rng s0))).
  { unfold bind, ret, command, Redis.hset. reflexivity. }
  rewrite (bind_return _ _ _ _ _ E1).
  match goal with |- context [bind (if_expire ?b ?key ?e) _ ?st] =>
    destruct (if_expire_rejected b key e st Hrej) as (m & Ee) end.
  rewrite (bind_throw _ _ _ _ _ Ee). simpl.
  rewrite <- Hdb. split; [reflexivity|]. split; [reflexivity|].
  unfold Redis.hset. simpl.
  rewrite hget_insert. simpl. now rewrite lookup_insert_eq.
Qed.

(** C7, as the code has it: in a PATCH by the owner the url is checked
    before anything is written, so a url the constructor rejects fails the
    request and leaves the whole store as it was: no field is changed and
    no time to live is set. *)
Theorem patch_invalid_url_changes_nothing (req : request) (s : state)
    (linkid t u : string) :
  req_method req = PATCH -> req_path req = Link linkid ->
  String.length linkid = LINKID_LEN ->
  owned_by linkid t (redis s) ->
  bearer req s = Some t ->
  url (req_body req) = Some u -> u <> "" ->
  URL u None = None ->
  fst (serve req s) = Failed 500 /\ redis (snd (serve req s)) = redis s.
Proof.
  intros Hm Hp Hlen Hown Hb Hu Hne HU.
  destruct (serve_patch_owner req s linkid t Hm Hp Hlen Hown Hb) as (s0 & Hdb & ->).
  unfold patch_linkid. rewrite Hu, (truthy_string_Some _ Hne).
  unfold new_URL. rewrite HU. unfold bind, throw. simpl. auto.
Qed.


(** ** Further properties of the handlers *)

(** *** Requests as the run of their layers *)

Lemma serve_routed (req : request) (s : state) :
  serve req s
  = answer req
      (match req_path req, req_method req with
       | Root, POST => post_root req
       | Link linkid, GET => param_linkid linkid;;; get_linkid linkid
       | Link linkid, DELETE =>
           param_linkid linkid;;; all_linkid req linkid;;;
           param_linkid linkid;;; delete_linkid linkid
       | Link linkid, PATCH =>
           param_linkid linkid;;; all_linkid req linkid;;;
           param_linkid linkid;;; patch_linkid req linkid
       | Link linkid, POST =>
           param_linkid linkid;;; all_linkid req linkid;;; ret NotFound
       | _, _ => ret NotFound
       end (routed req s)).
Proof.
  unfold serve, routes, routed.
  now rewrite (bind_return _ _ _ _ _ (all_star_returns req (enter req s))).
Qed.

Lemma fst_answer (req : request) (out : result response * state) :
  fst (answer req out) = fst (respond out).
Proof. now destruct out as [[r|e] s]. Qed.

Lemma redis_answer (req : request) (out : result response * state) :
  redis (snd (answer req out)) = redis (snd out).
Proof. now destruct out as [[r|e] s]. Qed.

Lemma rng_answer (req : request) (out : result response * state) :
  rng (snd (answer req out)) = rng (snd out).
Proof. now destruct out as [[r|e] s]. Qed.

Lemma routed_redis (req : request) (s : state) : redis (routed req s) = redis s.
Proof. unfold routed. now rewrite all_star_redis. Qed.

Lemma routed_session (req : request) (s : state) :
  session_token (routed req s) = bearer req s.
Proof. reflexivity. Qed.

(** *** Which keys a computation writes *)

Lemma store_kept_only_at {A} (key : string) (m : M A) :
  store_kept m -> only_at key m.
Proof. intros H s k _. now rewrite H. Qed.

Lemma only_at_bind {A B} (key : string) (m : M A) (f : A -> M B) :
  only_at key m -> (forall a, only_at key (f a)) -> only_at key (bind m f).
Proof.
  intros Hm Hf s k Hk. unfold bind. specialize (Hm s k Hk).
  destruct (m s) as [[a|e] s1]; simpl in *.
  - now rewrite (Hf a s1 k Hk).
  - exact Hm.
Qed.

Lemma store_kept_bind {A B} (m : M A) (f : A -> M B) :
  store_kept m -> (forall a, store_kept (f a)) -> store_kept (bind m f).
Proof.
  intros Hm Hf s. unfold bind. specialize (Hm s).
  destruct (m s) as [[a|e] s1]; simpl in *.
  - now rewrite (Hf a s1).
  - exact Hm.
Qed.

Lemma store_kept_ret {A} (a : A) : store_kept (ret a).
Proof. intros s. reflexivity. Qed.

Lemma store_kept_throw {A} (e : exn) : store_kept (@throw A e).
Proof. intros s. reflexivity. Qed.

Lemma store_kept_assert (c : bool) (n : nat) (m : string) : store_kept (assert c n m).
Proof. intros s. unfold assert. now destruct c. Qed.

Lemma store_kept_query {A} (q : Redis.store -> A) : store_kept (query q).
Proof. intros s. reflexivity. Qed.

Lemma store_kept_get_session : store_kept get_session.
Proof. intros s. reflexivity. Qed.

Lemma store_kept_new_URL (input : string) (base : option string) :
  store_kept (new_URL input base).
Proof. intros s. unfold new_URL. now destruct (URL input base). Qed.

Lemma store_kept_nanoid (size : nat) : store_kept (nanoid size).
Proof. intros s. reflexivity. Qed.

Lemma store_kept_param_linkid (linkid : string) : store_kept (param_linkid linkid).
Proof. apply store_kept_assert. Qed.

Lemma store_kept_all_linkid (req : request) (linkid : string) :
  store_kept (all_linkid req linkid).
Proof.
  unfold all_linkid. destruct (req_method req); try apply store_kept_ret;
    (apply store_kept_bind; [apply store_kept_query|]; intros token;
     apply store_kept_bind; [apply store_kept_assert|]; intros _;
     apply store_kept_bind; [apply store_kept_get_session|]; intros sess;
     apply store_kept_assert).
Qed.

Lemma store_kept_allocate (n : nat) : store_kept (allocate n).
Proof.
  intros s. destruct (allocate_returns n s) as (r & k & E & _). now rewrite E.
Qed.

(** The commands, key by key. *)
Lemma hincrby_only_at (key field : string) (incr : Z) (db : Redis.store) (k : string) :
  k <> key -> snd (Redis.hincrby key field incr db) !! k = db !! k.
Proof.
  intros Hk. unfold Redis.hincrby.
  destruct (match Redis.lookup_fields key db !! field with
            | Some s => Redis.string2ll s
            | None => Some 0%Z
            end) as [z|]; simpl; [|reflexivity].
  match goal with |- context [if ?c then _ else _] => destruct c end;
    [reflexivity|].
  simpl. now rewrite lookup_insert_ne.
Qed.

Lemma hset_only_at (key field v : string) (db : Redis.store) (k : string) :
  k <> key -> snd (Redis.hset key field v db) !! k = db !! k.
Proof. intros Hk. unfold Redis.hset. simpl. now rewrite lookup_insert_ne. Qed.

Lemma hmset_only_at (key : string) (kvs : list (string * string))
    (db : Redis.store) (k : string) :
  k <> key -> snd (Redis.hmset key kvs db) !! k = db !! k.
Proof. intros Hk. unfold Redis.hmset. simpl. now rewrite lookup_insert_ne. Qed.

Lemma expire_only_at (basetime : Z) (key seconds : string) (db : Redis.store)
    (k : string) :
  k <> key -> snd (Redis.expire basetime key seconds db) !! k = db !! k.
Proof.
  intros Hk. unfold Redis.expire.
  destruct (Redis.string2ll seconds) as [z|]; [|reflexivity].
  destruct (Redis.expire_time_overflows basetime z); [reflexivity|].
  destruct (db !! key); [|reflexivity].
  destruct (z <=? 0)%Z; simpl.
  - now rewrite lookup_delete_ne.
  - now rewrite lookup_insert_ne.
Qed.

Lemma unlink_only_at (key : string) (db : Redis.store) (k : string) :
  k <> key -> snd (Redis.unlink key db) !! k = db !! k.
Proof.
  intros Hk. unfold Redis.unlink. destruct (db !! key); [|reflexivity].
  simpl. now rewrite lookup_delete_ne.
Qed.

Lemma only_at_command {A} (key : string) (c : Redis.store -> A * Redis.store) :
  (forall db k, k <> key -> snd (c db) !! k = db !! k) ->
  only_at key (command c).
Proof.
  intros H s k Hk. unfold command. specialize (H (redis s) k Hk).
  destruct (c (redis s)). exact H.
Qed.

Lemma only_at_await {A} (key : string) (c : Redis.store -> Redis.reply A * Redis.store) :
  (forall db k, k <> key -> snd (c db) !! k = db !! k) ->
  only_at key (await c).
Proof.
  intros H s k Hk. unfold await. specialize (H (redis s) k Hk).
  destruct (c (redis s)) as [[a|m] db]; exact H.
Qed.

Lemma only_at_if_expire (basetime : Z) (key : string) (e : option JS.value) :
  only_at key (if_expire basetime key e).
Proof.
  unfold if_expire. destruct e as [v|]; [|apply store_kept_only_at, store_kept_ret].
  destruct (JS.truthy (Some v)); [|apply store_kept_only_at, store_kept_ret].
  apply only_at_bind.
  - apply only_at_await. intros db k. apply expire_only_at.
  - intros _. apply store_kept_only_at, store_kept_ret.
Qed.

Lemma only_at_get_linkid (linkid : string) : only_at linkid (get_linkid linkid).
Proof.
  unfold get_linkid. apply only_at_bind.
  - apply only_at_command. intros db k Hk. unfold multi_hincrby_hget.
    pose proof (hincrby_only_at linkid "accessed" 1 db k Hk) as H.
    destruct (Redis.hincrby linkid "accessed" 1 db). exact H.
  - intros replies. apply only_at_bind.
    + apply store_kept_only_at, store_kept_assert.
    + intros _. apply store_kept_only_at, store_kept_ret.
Qed.

Lemma only_at_delete_linkid (linkid : string) : only_at linkid (delete_linkid linkid).
Proof.
  unfold delete_linkid. apply only_at_bind.
  - apply only_at_command. intros db k. apply unlink_only_at.
  - intros res. apply store_kept_only_at, store_kept_ret.
Qed.

Lemma only_at_patch_linkid (req : request) (linkid : string) :
  only_at linkid (patch_linkid req linkid).
Proof.
  unfold patch_linkid. apply only_at_bind; [|intros _; apply only_at_bind].
  - destruct (url (req_body req)) as [u|]; [|apply store_kept_only_at, store_kept_ret].
    destruct (JS.truthy_string (Some u)); [|apply store_kept_only_at, store_kept_ret].
    apply only_at_bind; [apply store_kept_only_at, store_kept_new_URL|].
    intros _. apply only_at_bind.
    + apply only_at_command. intros db k. apply hset_only_at.
    + intros _. apply store_kept_only_at, store_kept_ret.
  - apply only_at_if_expire.
  - intros _. apply store_kept_only_at, store_kept_ret.
Qed.

Create HintDb frame.

#[local] Hint Resolve only_at_get_linkid only_at_delete_linkid
  only_at_patch_linkid only_at_bind store_kept_bind store_kept_ret
  store_kept_param_linkid store_kept_all_linkid : frame.
#[local] Hint Resolve store_kept_only_at | 5 : frame.

Lemma fst_respond_return (r : response) (s : state) :
  respond (Return r, s) = (r, s).
Proof. reflexivity. Qed.

Lemma snd_respond (out : result response * state) : snd (respond out) = snd out.
Proof. destruct out as [[r|e] s]; reflexivity. Qed.

(** The layers of a request for [/:linkid] write under [linkid] only. *)
Lemma link_layers_only_at (req : request) (linkid : string) :
  only_at linkid
    (match req_method req with
     | GET => param_linkid linkid;;; get_linkid linkid
     | DELETE =>
         param_linkid linkid;;; all_linkid req linkid;;;
         param_linkid linkid;;; delete_linkid linkid
     | PATCH =>
         param_linkid linkid;;; all_linkid req linkid;;;
         param_linkid linkid;;; patch_linkid req linkid
     | POST =>
         param_linkid linkid;;; all_linkid req linkid;;; ret NotFound
     end).
Proof. destruct (req_method req); auto 12 with frame. Qed.

Lemma serve_link_only_at (req : request) (s : state) (linkid k : string) :
  req_path req = Link linkid ->
  k <> linkid ->
  redis (snd (serve req s)) !! k = redis s !! k.
Proof.
  intros Hp Hk. rewrite serve_routed, Hp, redis_answer.
  rewrite <- (routed_redis req s).
  pose proof (link_layers_only_at req linkid (routed req s) k Hk) as H.
  destruct (req_method req); exact H.
Qed.

(** X1: a request for [/:linkid], whatever its method and its outcome, leaves
    every other key of the store as it was. *)
Theorem link_request_keeps_other_keys (req : request) (s : state)
    (linkid k : string) :
  req_path req = Link linkid ->
  k <> linkid ->
  redis (snd (serve req s)) !! k = redis s !! k.
Proof.
  intros Hp Hk. rewrite serve_routed, Hp, redis_answer.
  transitivity (redis (routed req s) !! k); [|now rewrite routed_redis].
  pose proof (link_layers_only_at req linkid) as H.
  destruct (req_method req); now apply H.
Qed.

(** *** The statuses a handler can end in *)

Lemma if_expire_outcome (basetime : Z) (key : string) (e : option JS.value)
    (s : state) :
  (exists s', if_expire basetime key e s = (Return tt, s'))
  \/ (exists m, if_expire basetime key e s = (Throw (ReplyError m), s)).
Proof.
  destruct (if_expire_cases basetime key e s) as [[db E]|[m E]]; eauto.
Qed.

Lemma post_root_status (req : request) (s : state) :
  status (fst (respond (post_root req s))) = 201
  \/ status (fst (respond (post_root req s))) = 500.
Proof.
  enough (exists n, status (fst (respond (post_root req s))) = n
                    /\ (n = 201 \/ n = 500)) as (n & E & H)
    by (rewrite E; exact H).
  unfold post_root. unfold new_URL at 1.
  destruct (URL (JS.to_string (url (req_body req))) None);
    [|exists 500; split; [reflexivity|auto]].
  rewrite bind_ret, bind_get_session.
  destruct (allocate_returns 10 s) as (r & k & Ea & _).
  rewrite (bind_return _ _ _ _ _ Ea).
  unfold command at 1, Redis.hmset. unfold bind at 1. cbv beta iota.
  rewrite String.eqb_refl. unfold assert at 1. unfold bind at 1, ret at 1.
  cbv beta iota.
  match goal with |- context [bind (if_expire ?b ?key ?e) _ ?st] =>
    destruct (if_expire_outcome b key e st) as [[s' Ee]|[m Ee]] end.
  - rewrite (bind_return _ _ _ _ _ Ee). unfold new_URL.
    destruct (URL (JS.to_string r) _);
      [exists 201|exists 500]; split; auto.
  - rewrite (bind_throw _ _ _ _ _ Ee). exists 500. split; auto.
Qed.

Lemma get_linkid_status (linkid : string) (s : state) :
  status (fst (respond (get_linkid linkid s))) = 301
  \/ status (fst (respond (get_linkid linkid s))) = 404.
Proof.
  enough (exists n, status (fst (respond (get_linkid linkid s))) = n
                    /\ (n = 301 \/ n = 404)) as (n & E & H)
    by (rewrite E; exact H).
  unfold get_linkid. monad_unfold.
  destruct (multi_hincrby_hget linkid (redis s)) as [[accessed fullUrl] db].
  simpl. destruct (JS.truthy_string fullUrl);
    [exists 301|exists 404]; split; auto.
Qed.

Lemma patch_linkid_status (req : request) (linkid : string) (s : state) :
  status (fst (respond (patch_linkid req linkid s))) = 200
  \/ status (fst (respond (patch_linkid req linkid s))) = 500.
Proof.
  enough (exists n, status (fst (respond (patch_linkid req linkid s))) = n
                    /\ (n = 200 \/ n = 500)) as (n & E & H)
    by (rewrite E; exact H).
  unfold patch_linkid.
  assert (H : (exists s', (match url (req_body req) with
                           | Some u =>
                               if JS.truthy_string (url (req_body req))
                               then (_ <- new_URL u None;;
                                     _ <- command (Redis.hset linkid "url" u);;
                                     ret tt)
                               else ret tt
                           | None => ret tt
                           end) s = (Return tt, s'))
              \/ (exists m, (match url (req_body req) with
                             | Some u =>
                                 if JS.truthy_string (url (req_body req))
                                 then (_ <- new_URL u None;;
                                       _ <- command (Redis.hset linkid "url" u);;
                                       ret tt)
                                 else ret tt
                             | None => ret tt
                             end) s = (Throw (TypeError m), s))).
  { destruct (url (req_body req)) as [u|]; [|left; eexists; reflexivity].
    destruct (JS.truthy_string (Some u)); [|left; eexists; reflexivity].
    unfold new_URL. destruct (URL u None).
    - left. unfold bind, ret, command.
      destruct (Redis.hset linkid "url" u (redis s)). eexists. reflexivity.
    - right. eexists. reflexivity. }
  destruct H as [[s' E]|[m E]].
  - rewrite (bind_return _ _ _ _ _ E).
    destruct (if_expire_outcome (clock req) linkid (expire (req_body req)) s')
      as [[s2 Ee]|[m Ee]].
    + rewrite (bind_return _ _ _ _ _ Ee). exists 200. split; auto.
    + rewrite (bind_throw _ _ _ _ _ Ee). exists 500. split; auto.
  - rewrite (bind_throw _ _ _ _ _ E). exists 500. split; auto.
Qed.

(** The token check either passes, the state being as it was, or stops the
    request with 404 or 401. *)
Lemma all_linkid_outcome (req : request) (linkid : string) (s : state) :
  all_linkid req linkid s = (Return tt, s)
  \/ exists n m, all_linkid req linkid s = (Throw (HttpError n m), s)
                 /\ (n = 404 \/ n = 401).
Proof.
  unfold all_linkid.
  destruct (req_method req); [left; reflexivity|..];
    monad_unfold; cbv beta iota;
    (destruct (JS.truthy_string (Redis.hget linkid "token" (redis s)));
     [cbv beta iota;
      destruct (strict_eq (Redis.hget linkid "token" (redis s)) (session_token s));
      [left; reflexivity | right; do 2 eexists; split; [reflexivity|auto]]
     | right; do 2 eexists; split; [reflexivity|auto]]).
Qed.

(** X2: a request answered 401 or 422 has left the store as it was. *)
Theorem refusal_keeps_store (req : request) (s : state) :
  status (fst (serve req s)) = 401 \/ status (fst (serve req s)) = 422 ->
  redis (snd (serve req s)) = redis s.
Proof.
  rewrite serve_routed, fst_answer. rewrite <- (routed_redis req s).
  generalize (routed req s). intros s0 H.
  destruct (req_path req) as [|linkid|].
  - destruct (req_method req); try reflexivity.
    destruct (post_root_status req s0) as [E|E]; rewrite E in H;
      destruct H; discriminate.
  - destruct (Nat.eq_dec (String.length linkid) LINKID_LEN) as [Hlen|Hlen].
    + pose proof (param_linkid_ok linkid s0 Hlen) as Hparam.
      destruct (req_method req).
      * rewrite (bind_return _ _ _ _ _ Hparam) in H.
        destruct (get_linkid_status linkid s0) as [E|E]; rewrite E in H;
          destruct H; discriminate.
      * rewrite (bind_return _ _ _ _ _ Hparam) in H |- *.
        destruct (all_linkid_outcome req linkid s0) as [E|(n & m & E & _)].
        -- rewrite (bind_return _ _ _ _ _ E) in H. simpl in H.
           destruct H; discriminate.
        -- now rewrite (bind_throw _ _ _ _ _ E).
      * rewrite (bind_return _ _ _ _ _ Hparam) in H |- *.
        destruct (all_linkid_outcome req linkid s0) as [E|(n & m & E & _)].
        -- rewrite (bind_return _ _ _ _ _ E) in H.
           rewrite (bind_return _ _ _ _ _ Hparam) in H.
           destruct (patch_linkid_status req linkid s0) as [E'|E'];
             rewrite E' in H; destruct H; discriminate.
        -- now rewrite (bind_throw _ _ _ _ _ E).
      * rewrite (bind_return _ _ _ _ _ Hparam) in H |- *.
        destruct (all_linkid_outcome req linkid s0) as [E|(n & m & E & _)].
        -- rewrite (bind_return _ _ _ _ _ E) in H.
           rewrite (bind_return _ _ _ _ _ Hparam) in H.
           unfold delete_linkid, bind, command, ret in H.
           destruct (Redis.unlink linkid (redis s0)). simpl in H.
           destruct H; discriminate.
        -- now rewrite (bind_throw _ _ _ _ _ E).
    + pose proof (param_linkid_malformed linkid s0 Hlen) as Hparam.
      destruct (req_method req); now rewrite (bind_throw _ _ _ _ _ Hparam).
  - reflexivity.
Qed.

(** *** Resolves *)

(** What the transaction of a resolve does to a record whose counter reads
    [n]. *)
Lemma multi_hincrby_hget_entry (linkid : string) (e : Redis.entry) (n : Z)
    (db : Redis.store) :
  db !! linkid = Some e ->
  Redis.fields e !! "accessed" = Some (JS.print_int n) ->
  (Redis.LLONG_MIN <= n < Redis.LLONG_MAX)%Z ->
  multi_hincrby_hget linkid db
  = ((Redis.Ok (n + 1)%Z, Redis.fields e !! "url"),
     <[linkid := Redis.Entry (<["accessed" := JS.print_int (n + 1)]> (Redis.fields e))
                   (Redis.ttl e)]> db).
Proof.
  intros He Ha Hn. unfold multi_hincrby_hget, Redis.hincrby.
  unfold Redis.lookup_fields, Redis.lookup_ttl.
  rewrite He, Ha, string2ll_print, increment_fits by lia.
  rewrite hget_insert. simpl Redis.fields.
  now rewrite lookup_insert_ne by discriminate.
Qed.

(** X3: a resolve of a record whose counter reads an integer short of the
    largest the store holds changes the counter and nothing else: the
    other fields, the time to live and the other keys are as they were. *)
Theorem resolve_changes_counter_only (req : request) (s : state)
    (linkid : string) (e : Redis.entry) (n : Z) :
  resolves linkid req ->
  String.length linkid = LINKID_LEN ->
  redis s !! linkid = Some e ->
  Redis.fields e !! "accessed" = Some (JS.print_int n) ->
  (Redis.LLONG_MIN <= n < Redis.LLONG_MAX)%Z ->
  redis (snd (serve req s))
  = <[linkid := Redis.Entry (<["accessed" := JS.print_int (n + 1)]> (Redis.fields e))
                  (Redis.ttl e)]> (redis s).
Proof.
  intros [Hm Hp] Hlen He Ha Hn.
  rewrite serve_routed, Hp, Hm, redis_answer.
  rewrite <- (routed_redis req s) in He |- *.
  rewrite (bind_return _ _ _ _ _ (param_linkid_ok _ _ Hlen)).
  unfold get_linkid, command, bind.
  rewrite (multi_hincrby_hget_entry _ _ _ _ He Ha Hn). cbv beta iota.
  unfold assert. simpl fst. simpl snd.
  destruct (JS.truthy_string (Redis.fields e !! "url")); reflexivity.
Qed.

Lemma get_linkid_by_store (linkid : string) (s1 s2 : state) :
  redis s1 = redis s2 ->
  fst (get_linkid linkid s1) = fst (get_linkid linkid s2)
  /\ redis (snd (get_linkid linkid s1)) = redis (snd (get_linkid linkid s2)).
Proof.
  intros E. unfold get_linkid, command, bind. rewrite E.
  destruct (multi_hincrby_hget linkid (redis s2)) as [[accessed fullUrl] db].
  cbv beta iota. unfold assert. simpl fst. simpl snd.
  destruct (JS.truthy_string fullUrl); split; reflexivity.
Qed.

(** X4: a resolve takes no credentials: two GET requests for the same
    identifier against the same store get the same answer and leave the
    same store, whatever session and Authorization header each comes
    with. *)
Theorem resolve_ignores_credentials (g1 g2 : request) (s1 s2 : state)
    (linkid : string) :
  resolves linkid g1 -> resolves linkid g2 ->
  redis s1 = redis s2 ->
  fst (serve g1 s1) = fst (serve g2 s2)
  /\ redis (snd (serve g1 s1)) = redis (snd (serve g2 s2)).
Proof.
  intros [Hm1 Hp1] [Hm2 Hp2] E.
  rewrite !serve_routed, Hp1, Hm1, Hp2, Hm2, redis_answer.
  assert (E0 : redis (routed g1 s1) = redis (routed g2 s2))
    by now rewrite !routed_redis.
  revert E0. generalize (routed g1 s1) (routed g2 s2). intros a b E0.
  destruct (Nat.eq_dec (String.length linkid) LINKID_LEN) as [Hlen|Hlen].
  - rewrite !(bind_return _ _ _ _ _ (param_linkid_ok _ _ Hlen)).
    destruct (get_linkid_by_store linkid a b E0) as [Hr Hdb].
    destruct (get_linkid linkid a) as [ra sa], (get_linkid linkid b) as [rb sb].
    simpl in Hr, Hdb. subst rb. destruct ra; simpl; auto.
  - rewrite !(bind_throw _ _ _ _ _ (param_linkid_malformed _ _ Hlen)).
    simpl. auto.
Qed.

(** *** Creates *)

(** The loop in full: it gives the first of its draws that does not
    collide, or nothing when all of them do. *)
Lemma allocate_result (n : nat) (s : state) :
  (exists j, j < n
             /\ (forall i, i < j -> collides s i = true)
             /\ collides s j = false
             /\ allocate n s
                = (Return (Some (candidate s j)),
                   State (session_token s) (redis s) (rng s + LINKID_LEN * S j)))
  \/ ((forall i, i < n -> collides s i = true)
      /\ allocate n s
         = (Return None,
            State (session_token s) (redis s) (rng s + LINKID_LEN * n))).
Proof.
  assert (H : (exists j, j < n /\ (forall i, i < j -> collides s i = true)
                         /\ collides s j = false)
              \/ (forall i, i < n -> collides s i = true)).
  { induction n as [|n IH]; [right; intros i Hi; lia|].
    destruct IH as [(j & Hj & Hb & Hf)|Hall].
    - left. exists j. repeat split; auto.
    - destruct (collides s n) eqn:E.
      + right. intros i Hi. destruct (Nat.eq_dec i n) as [->|]; [exact E|].
        apply Hall. lia.
      + left. exists n. repeat split; auto. }
  destruct H as [(j & Hj & Hb & Hf)|Hall].
  - left. exists j. repeat split; auto. now apply allocate_free.
  - right. split; [exact Hall|]. now apply allocate_exhausted.
Qed.

(** A create up to the point where the record has been written. *)
Lemma post_root_written (req : request) (s : state) (href : string) :
  URL (JS.to_string (url (req_body req))) None = Some href ->
  exists r k,
    allocate 10 s = (Return r, State (session_token s) (redis s) (rng s + k))
    /\ post_root req s
       = (if_expire (clock req) (Ioredis.toArg r) (expire (req_body req));;;
          shortLink <- new_URL (JS.to_string r) (Some (base_url req));;
          ret (Created (url (req_body req)) shortLink r (session_token s)))
           (State (session_token s)
              (snd (Redis.hmset (Ioredis.toArg r)
                      [("url", Ioredis.toArg (url (req_body req)));
                       ("baseUrl", base_url req);
                       ("accessed", JS.print_int 0);
                       ("createdAt", date req);
                       ("token", Ioredis.toArg (session_token s))]
                      (redis s)))
              (rng s + k)).
Proof.
  intros EU. destruct (allocate_returns 10 s) as (r & k & Ea & _).
  exists r, k. split; [exact Ea|].
  unfold post_root. unfold new_URL at 1. rewrite EU, bind_ret, bind_get_session.
  rewrite (bind_return _ _ _ _ _ Ea).
  unfold command at 1, Redis.hmset. unfold bind at 1. cbv beta iota.
  simpl redis. simpl session_token. simpl rng.
  rewrite String.eqb_refl. unfold assert at 1. unfold bind at 1, ret at 1.
  reflexivity.
Qed.

Lemma hget_hmset_new (key field : string) (u b d t : string) (db : Redis.store) :
  Redis.hget key field
    (snd (Redis.hmset key
            [("url", u); ("baseUrl", b); ("accessed", JS.print_int 0);
             ("createdAt", d); ("token", t)] db))
  = if String.eqb field "token" then Some t
    else if String.eqb field "createdAt" then Some d
    else if String.eqb field "accessed" then Some (JS.print_int 0)
    else if String.eqb field "baseUrl" then Some b
    else if String.eqb field "url" then Some u
    else Redis.hget key field db.
Proof.
  unfold Redis.hmset. simpl snd. rewrite hget_insert. simpl Redis.fields.
  unfold Redis.set_fields. simpl fold_left.
  destruct (String.eqb_spec field "token") as [->|H1];
    [now rewrite lookup_insert_eq | rewrite lookup_insert_ne by congruence].
  destruct (String.eqb_spec field "createdAt") as [->|H2];
    [now rewrite lookup_insert_eq | rewrite lookup_insert_ne by congruence].
  destruct (String.eqb_spec field "accessed") as [->|H3];
    [now rewrite lookup_insert_eq | rewrite lookup_insert_ne by congruence].
  destruct (String.eqb_spec field "baseUrl") as [->|H4];
    [now rewrite lookup_insert_eq | rewrite lookup_insert_ne by congruence].
  destruct (String.eqb_spec field "url") as [->|H5];
    [now rewrite lookup_insert_eq | rewrite lookup_insert_ne by congruence].
  reflexivity.
Qed.

(** A create that ends in an answer with an identifier, in the state its
    handler ran in. *)
Lemma post_root_fresh (req : request) (s0 : state)
    (u : option string) (shortLink linkid : string) (token : option string) :
  fst (respond (post_root req s0)) = Created u shortLink (Some linkid) token ->
  Redis.hexists linkid "url" (redis s0) = 0%Z
  /\ String.length linkid = LINKID_LEN
  /\ JS.all_chars Nanoid.url_safe linkid = true
  /\ token = session_token s0
  /\ u = url (req_body req)
  /\ URL linkid (Some (base_url req)) = Some shortLink.
Proof.
  destruct (URL (JS.to_string (url (req_body req))) None) as [href|] eqn:EU.
  - destruct (post_root_written req s0 href EU) as (r & k & Ea & ->).
    match goal with |- context [bind (if_expire ?b ?key ?e) _ ?st] =>
      destruct (if_expire_outcome b key e st) as [[s' Ee]|[m Ee]] end.
    + rewrite (bind_return _ _ _ _ _ Ee). unfold new_URL.
      destruct (URL (JS.to_string r) (Some (base_url req))) as [sl|] eqn:ES;
        [|discriminate].
      unfold bind, ret. simpl. intros [= <- <- -> <-].
      destruct (allocate_result 10 s0) as [(j & _ & _ & Hfree & Ea')|[_ Ea']];
        rewrite Ea' in Ea; [|discriminate].
      injection Ea as <- _. unfold collides in Hfree.
      apply negb_false_iff, Z.eqb_eq in Hfree.
      repeat split; auto;
        first [apply generate_length | apply generate_url_safe].
    + rewrite (bind_throw _ _ _ _ _ Ee). discriminate.
  - unfold post_root, new_URL. rewrite EU. discriminate.
Qed.

Lemma post_root_record (req : request) (s0 : state)
    (u shortLink linkid : string) (token : option string) :
  live_expire (expire (req_body req)) = true ->
  fst (respond (post_root req s0)) = Created (Some u) shortLink (Some linkid) token ->
  Redis.hget linkid "url" (redis (snd (post_root req s0))) = Some u
  /\ Redis.hget linkid "baseUrl" (redis (snd (post_root req s0))) = Some (base_url req)
  /\ Redis.hget linkid "accessed" (redis (snd (post_root req s0)))
     = Some (JS.print_int 0)
  /\ Redis.hget linkid "createdAt" (redis (snd (post_root req s0))) = Some (date req)
  /\ Redis.hget linkid "token" (redis (snd (post_root req s0)))
     = Some (Ioredis.toArg (session_token s0))
  /\ forall k, k <> linkid ->
       redis (snd (post_root req s0)) !! k = redis s0 !! k.
Proof.
  intros Hlive.
  destruct (URL (JS.to_string (url (req_body req))) None) as [href|] eqn:EU.
  - destruct (post_root_written req s0 href EU) as (r & k & Ea & ->).
    match goal with |- context [bind (if_expire ?b ?key ?e) _ ?st] =>
      pose proof (only_at_if_expire b key e st) as Hframe;
      destruct (if_expire_cases b key e st) as [[db Ee]|[m Ee]];
      [destruct (if_expire_live b key e st _ Hlive Ee) as (db' & [= <-] & Hdb)
      |rewrite (bind_throw _ _ _ _ _ Ee); discriminate]
    end.
    rewrite Ee in Hframe. cbn [snd redis] in Hframe, Hdb.
    rewrite (bind_return _ _ _ _ _ Ee). unfold new_URL.
    destruct (URL (JS.to_string r) (Some (base_url req))) as [sl|];
      [|discriminate].
    unfold bind, ret. cbn [fst snd respond redis].
    intros [= Hu <- -> <-]. cbn [Ioredis.toArg] in Hdb, Hframe.
    rewrite !Hdb, !hget_hmset_new. cbn [String.eqb Ascii.eqb Bool.eqb].
    rewrite Hu. repeat split; try reflexivity.
    intros k0 Hk. rewrite (Hframe k0 Hk). now apply hmset_only_at.
  - unfold post_root, new_URL. rewrite EU. discriminate.
Qed.

(** X5: the record a create writes has the five fields [url], [baseUrl],
    [accessed], [createdAt] and [token], the count being 0 and the token
    the one of the session, and every other key of the store is as it
    was. *)
Theorem create_writes_record (req : request) (s : state)
    (u shortLink linkid : string) (token : option string) :
  req_method req = POST -> req_path req = Root ->
  live_expire (expire (req_body req)) = true ->
  fst (serve req s) = Created (Some u) shortLink (Some linkid) token ->
  Redis.hget linkid "url" (redis (snd (serve req s))) = Some u
  /\ Redis.hget linkid "baseUrl" (redis (snd (serve req s))) = Some (base_url req)
  /\ Redis.hget linkid "accessed" (redis (snd (serve req s))) = Some (JS.print_int 0)
  /\ Redis.hget linkid "createdAt" (redis (snd (serve req s))) = Some (date req)
  /\ Redis.hget linkid "token" (redis (snd (serve req s)))
     = Some (Ioredis.toArg (bearer req s))
  /\ forall k, k <> linkid -> redis (snd (serve req s)) !! k = redis s !! k.
Proof.
  intros Hm Hp Hlive. rewrite serve_routed, Hp, Hm, fst_answer, !redis_answer.
  rewrite <- (routed_redis req s), <- routed_session.
  now apply post_root_record.
Qed.

(** X6: the identifier a create answers with is new to the store: it had no
    url under it; it has [LINKID_LEN] symbols of the URL-safe alphabet; the
    token of the answer is the token of the session, and the short link is
    the identifier resolved against the base url. *)
Theorem create_returns_fresh_identifier (req : request) (s : state)
    (u : option string) (shortLink linkid : string) (token : option string) :
  req_method req = POST -> req_path req = Root ->
  fst (serve req s) = Created u shortLink (Some linkid) token ->
  Redis.hexists linkid "url" (redis s) = 0%Z
  /\ String.length linkid = LINKID_LEN
  /\ JS.all_chars Nanoid.url_safe linkid = true
  /\ token = bearer req s
  /\ u = url (req_body req)
  /\ URL linkid (Some (base_url req)) = Some shortLink.
Proof.
  intros Hm Hp. rewrite serve_routed, Hp, Hm, fst_answer.
  rewrite <- (routed_redis req s), <- routed_session.
  apply post_root_fresh.
Qed.

(** The expiry statement on a key that is there, with a number of seconds
    the store accepts. *)
Lemma if_expire_run (basetime : Z) (key : string) (v : JS.value) (z : Z)
    (en : Redis.entry) (s : state) :
  JS.truthy (Some v) = true ->
  JS.parse_int (Ioredis.toArg_value v) = Some z ->
  accepted_seconds basetime z = true ->
  redis s !! key = Some en ->
  if_expire basetime key (Some v) s
  = (Return tt,
     State (session_token s)
       (if (z <=? 0)%Z then delete key (redis s)
        else <[key := Redis.Entry (Redis.fields en) (Some z)]> (redis s))
       (rng s)).
Proof.
  intros Ht Hp Ha He. unfold if_expire. rewrite Ht. monad_unfold.
  rewrite (expire_accepted _ _ _ _ _ Hp Ha), He. now destruct (z <=? 0)%Z.
Qed.

(** With a number of seconds it refuses, the statement throws. *)
Lemma if_expire_refused (basetime : Z) (key : string) (v : JS.value) (z : Z)
    (s : state) :
  JS.truthy (Some v) = true ->
  JS.parse_int (Ioredis.toArg_value v) = Some z ->
  accepted_seconds basetime z = false ->
  exists m, if_expire basetime key (Some v) s = (Throw (ReplyError m), s).
Proof.
  intros Ht Hp Ha. unfold if_expire. rewrite Ht. monad_unfold.
  destruct (expire_cases basetime key (Ioredis.toArg_value v) (redis s))
    as [[m ->]|(z' & Hp' & Ha' & _)].
  - exists m. now destruct s.
  - congruence.
Qed.

Lemma hmset_lookup (key : string) (kvs : list (string * string)) (db : Redis.store) :
  snd (Redis.hmset key kvs db) !! key
  = Some (Redis.Entry (Redis.set_fields kvs (Redis.lookup_fields key db))
            (Redis.lookup_ttl key db)).
Proof. unfold Redis.hmset. simpl. apply lookup_insert_eq. Qed.

(** A create with a number of seconds as [expire]: the store refuses it
    and the create fails, or the create goes on in the state the expiry
    statement leaves. *)
Lemma post_root_expiring (req : request) (s : state) (href : string)
    (v : JS.value) (z : Z) :
  URL (JS.to_string (url (req_body req))) None = Some href ->
  expire (req_body req) = Some v ->
  JS.truthy (Some v) = true ->
  JS.parse_int (Ioredis.toArg_value v) = Some z ->
  (accepted_seconds (clock req) z = false
   /\ exists m s', post_root req s = (Throw (ReplyError m), s'))
  \/ (accepted_seconds (clock req) z = true
      /\ exists r k en db,
           post_root req s
           = (shortLink <- new_URL (JS.to_string r) (Some (base_url req));;
              ret (Created (url (req_body req)) shortLink r (session_token s)))
               (State (session_token s)
                  (if (z <=? 0)%Z then delete (Ioredis.toArg r) db
                   else <[Ioredis.toArg r
                          := Redis.Entry (Redis.fields en) (Some z)]> db)
                  (rng s + k))).
Proof.
  intros EU Ee Ht Hp.
  destruct (post_root_written req s href EU) as (r & k & _ & ->).
  rewrite Ee.
  destruct (accepted_seconds (clock req) z) eqn:Ha; [right|left];
    (split; [reflexivity|]).
  - match goal with |- context [bind (if_expire ?b ?key _) _ ?st] =>
      pose proof (hmset_lookup key
                    [("url", Ioredis.toArg (url (req_body req)));
                     ("baseUrl", base_url req);
                     ("accessed", JS.print_int 0);
                     ("createdAt", date req);
                     ("token", Ioredis.toArg (session_token s))] (redis s)) as Hl;
      rewrite (bind_return _ _ _ _ _ (if_expire_run b key v z _ st Ht Hp Ha Hl)) end.
    do 4 eexists. reflexivity.
  - match goal with |- context [bind (if_expire ?b ?key _) _ ?st] =>
      destruct (if_expire_refused b key v z st Ht Hp Ha) as [m Em] end.
    rewrite (bind_throw _ _ _ _ _ Em). eauto.
Qed.

(** X7: a create with a positive number of seconds as [expire] leaves the
    new record with that time to live. *)
Theorem create_sets_time_to_live (req : request) (s : state) (v : JS.value)
    (z : Z) (u : option string) (shortLink linkid : string) (token : option string) :
  req_method req = POST -> req_path req = Root ->
  expire (req_body req) = Some v ->
  JS.truthy (Some v) = true ->
  JS.parse_int (Ioredis.toArg_value v) = Some z ->
  (0 < z)%Z ->
  fst (serve req s) = Created u shortLink (Some linkid) token ->
  Redis.lookup_ttl linkid (redis (snd (serve req s))) = Some z.
Proof.
  intros Hm Hp Ee Ht Hparse Hz. rewrite serve_routed, Hp, Hm, fst_answer, redis_answer.
  generalize (routed req s). intros s0.
  destruct (URL (JS.to_string (url (req_body req))) None) as [href|] eqn:EU.
  - destruct (post_root_expiring req s0 href v z EU Ee Ht Hparse)
      as [[_ (m & s' & ->)]|[_ (r & k & en & db & ->)]]; [discriminate|].
    destruct (Z.leb_spec z 0); [lia|].
    unfold new_URL.
    destruct (URL (JS.to_string r) (Some (base_url req))); [|discriminate].
    unfold bind, ret. cbn [fst snd respond redis]. intros [= _ _ -> _].
    cbn [Ioredis.toArg]. unfold Redis.lookup_ttl.
    now rewrite lookup_insert_eq.
  - unfold post_root, new_URL. rewrite EU. discriminate.
Qed.

(** X8: a create whose [expire] is a number of seconds that is not positive
    is answered 201 with an identifier like any other, and the record is
    gone from the store when the answer is given. *)
Theorem create_expired_at_once (req : request) (s : state) (v : JS.value)
    (z : Z) (u : option string) (shortLink linkid : string) (token : option string) :
  req_method req = POST -> req_path req = Root ->
  expire (req_body req) = Some v ->
  JS.truthy (Some v) = true ->
  JS.parse_int (Ioredis.toArg_value v) = Some z ->
  (z <= 0)%Z ->
  fst (serve req s) = Created u shortLink (Some linkid) token ->
  redis (snd (serve req s)) !! linkid = None.
Proof.
  intros Hm Hp Ee Ht Hparse Hz. rewrite serve_routed, Hp, Hm, fst_answer, redis_answer.
  generalize (routed req s). intros s0.
  destruct (URL (JS.to_string (url (req_body req))) None) as [href|] eqn:EU.
  - destruct (post_root_expiring req s0 href v z EU Ee Ht Hparse)
      as [[_ (m & s' & ->)]|[_ (r & k & en & db & ->)]]; [discriminate|].
    destruct (Z.leb_spec z 0); [|lia].
    unfold new_URL.
    destruct (URL (JS.to_string r) (Some (base_url req))); [|discriminate].
    unfold bind, ret. cbn [fst snd respond redis]. intros [= _ _ -> _].
    cbn [Ioredis.toArg]. apply lookup_delete_eq.
  - unfold post_root, new_URL. rewrite EU. discriminate.
Qed.

(** X9: a create whose [expire] is absent, falsy or a positive number of
    seconds the store accepts, and whose short link cannot be built, fails
    with 500 after the record has been written: the record stays in the
    store under the identifier that was drawn. *)
Theorem create_fails_after_write (req : request) (s : state) (href : string)
    (j : nat) :
  req_method req = POST -> req_path req = Root ->
  URL (JS.to_string (url (req_body req))) None = Some href ->
  j < 10 ->
  (forall i, i < j -> collides (routed req s) i = true) ->
  collides (routed req s) j = false ->
  live_expire_at (clock req) (expire (req_body req)) = true ->
  URL (candidate (routed req s) j) (Some (base_url req)) = None ->
  fst (serve req s) = Failed 500
  /\ Redis.hget (candidate (routed req s) j) "url" (redis (snd (serve req s)))
     = Some (Ioredis.toArg (url (req_body req)))
  /\ Redis.hget (candidate (routed req s) j) "token" (redis (snd (serve req s)))
     = Some (Ioredis.toArg (bearer req s)).
Proof.
  intros Hm Hp EU Hj Hbefore Hfree Hlive ES.
  rewrite serve_routed, Hp, Hm, fst_answer, !redis_answer. rewrite <- routed_session.
  revert Hbefore Hfree ES. generalize (routed req s). intros s0 Hbefore Hfree ES.
  destruct (post_root_written req s0 href EU) as (r & k & Ea & ->).
  rewrite (allocate_free 10 j s0 Hj Hbefore Hfree) in Ea.
  injection Ea as <- _.
  match goal with |- context [bind (if_expire ?b ?key ?e) _ ?st] =>
    destruct (if_expire_live_at b key e st Hlive) as (db & Ee & Hdb) end.
  rewrite (bind_return _ _ _ _ _ Ee).
  unfold new_URL. cbn [JS.to_string]. rewrite ES.
  unfold bind, throw. cbn [fst snd respond redis onerror Ioredis.toArg] in *.
  rewrite !Hdb, !hget_hmset_new. auto.
Qed.

(** *** Updates *)

Lemma owned_by_lookup (linkid t : string) (db : Redis.store) :
  owned_by linkid t db -> exists e, db !! linkid = Some e.
Proof. intros [H _]. exact (hget_Some_lookup _ _ _ _ H). Qed.

(** The update handler on a valid url without [expire], and on a positive
    [expire] without url. *)
Lemma patch_linkid_url_run (req : request) (s0 : state) (linkid u : string)
    (e : Redis.entry) :
  redis s0 !! linkid = Some e ->
  url (req_body req) = Some u -> u <> "" ->
  URL u None <> None ->
  expire (req_body req) = None ->
  patch_linkid req linkid s0
  = (Return Success,
     State (session_token s0)
       (<[linkid := Redis.Entry (<["url" := u]> (Redis.fields e)) (Redis.ttl e)]>
          (redis s0))
       (rng s0)).
Proof.
  intros He Hu Hne HU Hex.
  unfold patch_linkid. rewrite Hu, (truthy_string_Some _ Hne), Hex.
  unfold new_URL. destruct (URL u None) as [href|]; [|contradiction].
  unfold if_expire, bind, ret, command, Redis.hset.
  unfold Redis.lookup_fields, Redis.lookup_ttl. now rewrite He.
Qed.

Lemma patch_linkid_ttl_run (req : request) (s0 : state) (linkid : string)
    (e : Redis.entry) (v : JS.value) (z : Z) :
  redis s0 !! linkid = Some e ->
  url (req_body req) = None ->
  expire (req_body req) = Some v ->
  JS.truthy (Some v) = true ->
  JS.parse_int (Ioredis.toArg_value v) = Some z ->
  (0 < z)%Z ->
  accepted_seconds (clock req) z = true ->
  patch_linkid req linkid s0
  = (Return Success,
     State (session_token s0)
       (<[linkid := Redis.Entry (Redis.fields e) (Some z)]> (redis s0))
       (rng s0)).
Proof.
  intros He Hu Hex Ht Hparse Hz Ha.
  unfold patch_linkid. rewrite Hu, Hex, bind_ret.
  rewrite (bind_return _ _ _ _ _
             (if_expire_run (clock req) linkid v z e s0 Ht Hparse Ha He)).
  destruct (Z.leb_spec z 0); [lia|]. reflexivity.
Qed.

(** The first statement of the update handler, on a url that is absent,
    empty or valid: the record is still there after it. *)
Lemma patch_linkid_url_step (req : request) (s0 : state) (linkid : string)
    (e : Redis.entry) :
  redis s0 !! linkid = Some e ->
  (forall u, url (req_body req) = Some u -> u <> "" -> URL u None <> None) ->
  exists db h,
    match url (req_body req) with
    | Some u =>
        if JS.truthy_string (url (req_body req))
        then (_ <- new_URL u None;;
              _ <- command (Redis.hset linkid "url" u);; ret tt)
        else ret tt
    | None => ret tt
    end s0 = (Return tt, State (session_token s0) db (rng s0))
    /\ db !! linkid = Some (Redis.Entry h (Redis.ttl e)).
Proof.
  intros He HU.
  destruct (url (req_body req)) as [u|] eqn:Hu.
  - destruct (String.eqb_spec u "") as [->|Hne].
    + exists (redis s0), (Redis.fields e). destruct s0, e. split; [reflexivity|].
      exact He.
    + rewrite (truthy_string_Some _ Hne). unfold new_URL.
      specialize (HU u eq_refl Hne).
      destruct (URL u None) as [href|]; [|contradiction].
      unfold bind, ret, command, Redis.hset. cbn [snd].
      do 2 eexists. split; [reflexivity|].
      rewrite lookup_insert_eq. unfold Redis.lookup_ttl. now rewrite He.
  - exists (redis s0), (Redis.fields e). destruct s0, e. split; [reflexivity|].
    exact He.
Qed.

(** An update that gives a time to live the store accepts, with a url that
    is absent, empty or valid, leaves the record with that time to live. *)
Lemma patch_linkid_expiring (req : request) (s0 : state) (linkid : string)
    (e : Redis.entry) (v : JS.value) (z : Z) :
  redis s0 !! linkid = Some e ->
  (forall u, url (req_body req) = Some u -> u <> "" -> URL u None <> None) ->
  expire (req_body req) = Some v ->
  JS.truthy (Some v) = true ->
  JS.parse_int (Ioredis.toArg_value v) = Some z ->
  (0 < z)%Z ->
  accepted_seconds (clock req) z = true ->
  exists s1 h,
    patch_linkid req linkid s0 = (Return Success, s1)
    /\ redis s1 !! linkid = Some (Redis.Entry h (Some z)).
Proof.
  intros He HU Hex Ht Hparse Hz Ha.
  destruct (patch_linkid_url_step req s0 linkid e He HU) as (db & h & E & Hl).
  unfold patch_linkid. rewrite (bind_return _ _ _ _ _ E), Hex.
  rewrite (bind_return _ _ _ _ _
             (if_expire_run (clock req) linkid v z _
                (State (session_token s0) db (rng s0)) Ht Hparse Ha Hl)).
  destruct (Z.leb_spec z 0); [lia|].
  do 2 eexists. split; [reflexivity|]. cbn [redis Redis.fields].
  apply lookup_insert_eq.
Qed.

Lemma patch_linkid_store_url (req : request) (s : state) (linkid t u : string)
    (e : Redis.entry) :
  req_method req = PATCH -> req_path req = Link linkid ->
  String.length linkid = LINKID_LEN ->
  owned_by linkid t (redis s) ->
  bearer req s = Some t ->
  redis s !! linkid = Some e ->
  url (req_body req) = Some u -> u <> "" ->
  URL u None <> None ->
  expire (req_body req) = None ->
  fst (serve req s) = Success
  /\ redis (snd (serve req s))
     = <[linkid := Redis.Entry (<["url" := u]> (Redis.fields e)) (Redis.ttl e)]>
         (redis s).
Proof.
  intros Hm Hp Hlen Hown Hb He Hu Hne HU Hex.
  destruct (serve_patch_owner req s linkid t Hm Hp Hlen Hown Hb) as (s0 & Hdb & ->).
  rewrite <- Hdb in He |- *.
  now rewrite (patch_linkid_url_run req s0 linkid u e He Hu Hne HU Hex).
Qed.

(** X10: an update by the owner that carries a valid url and no [expire] is
    answered 200 and replaces the url of the record; its other fields, its
    time to live and the other keys are as they were. *)
Theorem patch_replaces_url_only (req : request) (s : state) (linkid t u : string)
    (e : Redis.entry) :
  req_method req = PATCH -> req_path req = Link linkid ->
  String.length linkid = LINKID_LEN ->
  owned_by linkid t (redis s) ->
  bearer req s = Some t ->
  redis s !! linkid = Some e ->
  url (req_body req) = Some u -> u <> "" ->
  URL u None <> None ->
  expire (req_body req) = None ->
  fst (serve req s) = Success
  /\ redis (snd (serve req s))
     = <[linkid := Redis.Entry (<["url" := u]> (Redis.fields e)) (Redis.ttl e)]>
         (redis s).
Proof.
  intros Hm Hp Hlen Hown Hb He Hu Hne HU Hex.
  destruct (serve_patch_owner req s linkid t Hm Hp Hlen Hown Hb) as (s0 & Hdb & ->).
  rewrite <- Hdb in He |- *.
  rewrite (patch_linkid_url_run req s0 linkid u e He Hu Hne HU Hex).
  split; reflexivity.
Qed.

(** X11: an update by the owner that carries as [expire] a positive number
    of seconds the store accepts, and no url, is answered 200 and gives the
    record that time to live; its fields and the other keys are as they
    were. *)
Theorem patch_sets_time_to_live (req : request) (s : state) (linkid t : string)
    (e : Redis.entry) (v : JS.value) (z : Z) :
  req_method req = PATCH -> req_path req = Link linkid ->
  String.length linkid = LINKID_LEN ->
  owned_by linkid t (redis s) ->
  bearer req s = Some t ->
  redis s !! linkid = Some e ->
  url (req_body req) = None ->
  expire (req_body req) = Some v ->
  JS.truthy (Some v) = true ->
  JS.parse_int (Ioredis.toArg_value v) = Some z ->
  (0 < z)%Z ->
  accepted_seconds (clock req) z = true ->
  fst (serve req s) = Success
  /\ redis (snd (serve req s))
     = <[linkid := Redis.Entry (Redis.fields e) (Some z)]> (redis s).
Proof.
  intros Hm Hp Hlen Hown Hb He Hu Hex Ht Hparse Hz Ha.
  destruct (serve_patch_owner req s linkid t Hm Hp Hlen Hown Hb) as (s0 & Hdb & ->).
  rewrite <- Hdb in He |- *.
  rewrite (patch_linkid_ttl_run req s0 linkid e v z He Hu Hex Ht Hparse Hz Ha).
  split; reflexivity.
Qed.

(** X12: after an update by the owner that carries a valid url and no
    [expire], a resolve redirects to the new url, and the access count,
    as long as it is a safe integer, goes on from where it was. *)
Theorem patch_then_resolve (req g : request) (s : state) (linkid t u : string)
    (n : Z) :
  req_method req = PATCH -> req_path req = Link linkid ->
  String.length linkid = LINKID_LEN ->
  owned_by linkid t (redis s) ->
  bearer req s = Some t ->
  Redis.hget linkid "accessed" (redis s) = Some (JS.print_int n) ->
  (0 <= n < JS.MAX_SAFE_INTEGER)%Z ->
  url (req_body req) = Some u -> u <> "" ->
  URL u None <> None ->
  expire (req_body req) = None ->
  resolves linkid g ->
  fst (serve g (snd (serve req s))) = MovedPermanently u (JS.print_int (n + 1)).
Proof.
  intros Hm Hp Hlen Hown Hb Ha Hn Hu Hne HU Hex Hg.
  destruct (owned_by_lookup _ _ _ Hown) as [e He].
  destruct (patch_linkid_store_url req s linkid t u e) as [_ Hdb]; auto.
  rewrite <- (String_of_reply_safe (n + 1))
    by (apply safe_integer_range; unfold JS.MAX_SAFE_INTEGER in *; lia).
  apply (serve_get_record g linkid u n); auto.
  - unfold JS.MAX_SAFE_INTEGER in Hn.
    unfold Redis.LLONG_MIN, Redis.LLONG_MAX. lia.
  - rewrite Hdb, hget_insert. apply lookup_insert_eq.
  - rewrite Hdb, hget_insert. simpl Redis.fields.
    rewrite lookup_insert_ne by discriminate.
    unfold Redis.hget, Redis.lookup_fields in Ha. now rewrite He in Ha.
Qed.

(** X13: once the owner has given a record a time to live, in an update
    whose [expire] is a positive number of seconds the store accepts and
    whose url, if it has one, is valid, a resolve that comes after that
    many seconds or more is answered 404: the store has removed the record
    by itself. *)
Theorem expired_record_not_found (req g : request) (s s' : state)
    (linkid t : string) (v : JS.value) (z seconds : Z) :
  req_method req = PATCH -> req_path req = Link linkid ->
  String.length linkid = LINKID_LEN ->
  owned_by linkid t (redis s) ->
  bearer req s = Some t ->
  (forall u, url (req_body req) = Some u -> u <> "" -> URL u None <> None) ->
  expire (req_body req) = Some v ->
  JS.truthy (Some v) = true ->
  JS.parse_int (Ioredis.toArg_value v) = Some z ->
  (0 < z <= seconds)%Z ->
  accepted_seconds (clock req) z = true ->
  redis s' = Redis.elapse seconds (redis (snd (serve req s))) ->
  resolves linkid g ->
  fst (serve req s) = Success /\ fst (serve g s') = Failed 404.
Proof.
  intros Hm Hp Hlen Hown Hb HU Hex Ht Hparse [Hz Hs] Ha Hs' Hg.
  destruct (owned_by_lookup _ _ _ Hown) as [e He].
  destruct (serve_patch_owner req s linkid t Hm Hp Hlen Hown Hb) as (s0 & Hdb & E).
  rewrite <- Hdb in He.
  destruct (patch_linkid_expiring req s0 linkid e v z He HU Hex Ht Hparse Hz Ha)
    as (s1 & h & E1 & Hl).
  rewrite E1 in E. rewrite E in Hs' |- *. cbn [fst snd] in Hs' |- *.
  split; [reflexivity|].
  apply (serve_get_absent g s' linkid); auto.
  rewrite Hs'. unfold Redis.elapse. rewrite lookup_omap, Hl.
  simpl. destruct (Z.leb_spec z seconds); [reflexivity|lia].
Qed.

(** *** The session token *)

Lemma url_safe_not_space (c : ascii) :
  Nanoid.url_safe c = true -> negb (JS.is_space c) = true.
Proof.
  destruct c as [[] [] [] [] [] [] [] []]; vm_compute; intros H;
    first [reflexivity | discriminate H].
Qed.

Lemma word_not_space (c : ascii) :
  JS.is_word c = true -> negb (JS.is_space c) = true.
Proof.
  destruct c as [[] [] [] [] [] [] [] []]; vm_compute; intros H;
    first [reflexivity | discriminate H].
Qed.

Lemma all_chars_impl (p q : ascii -> bool) (s : string) :
  (forall c, p c = true -> q c = true) ->
  JS.all_chars p s = true -> JS.all_chars q s = true.
Proof.
  intros H. induction s as [|c s IH]; simpl; [reflexivity|].
  intros [Hc Hs]%andb_prop. now rewrite (H c Hc), IH.
Qed.

(** The token [router.all("*")] leaves in the session is not empty, and
    when the session had none it has no white space in it. *)
Lemma all_star_token (req : request) (s : state) :
  exists t,
    session_token (snd (all_star req s)) = Some t /\ t <> ""
    /\ (JS.truthy_string (session_token s) = false ->
        JS.all_chars (fun c => negb (JS.is_space c)) t = true).
Proof.
  unfold all_star. rewrite bind_get_session.
  destruct (JS.truthy_string (session_token s)) eqn:Et;
    cbv beta iota delta [negb].
  - destruct (session_token s) as [t|] eqn:E; [|discriminate]. exists t.
    split; [exact E|]. split; [|discriminate].
    intros ->. discriminate.
  - destruct (token_regex_test (authorization req)) eqn:Er.
    + destruct (token_regex_test_credential _ Er) as (kw & sp & _ & _ & _ & Hne & Hall).
      exists (JS.substr 6 (authorization req)). auto.
    + exists (Nanoid.generate random (rng s) 30).
      split; [reflexivity|]. split; [discriminate|]. intros _.
      apply all_chars_impl with (p := Nanoid.url_safe);
        [apply url_safe_not_space | apply generate_url_safe].
Qed.

(** X14: the session middleware always leaves a token in the session, and a
    session that has one keeps it: on a later request of the session the
    middleware changes nothing, whatever Authorization header the request
    carries. *)
Theorem session_token_sticks (req later : request) (s : state) :
  JS.truthy_string (session_token (snd (all_star req s))) = true
  /\ all_star later (snd (all_star req s)) = (Return tt, snd (all_star req s)).
Proof.
  destruct (all_star_token req s) as (t & Ht & Hne & _).
  assert (H : JS.truthy_string (session_token (snd (all_star req s))) = true)
    by (rewrite Ht; now apply truthy_string_Some).
  split; [exact H|].
  unfold all_star at 1. rewrite bind_get_session, H. reflexivity.
Qed.

(** The header [Token <t>] on a request without a session token gives the
    request the token [t]. *)
Lemma bearer_of_header (req : request) (s : state) (t : string) :
  JS.truthy_string (session req) = false ->
  authorization req = "Token " +:+ t ->
  t <> "" ->
  JS.all_chars (fun c => negb (JS.is_space c)) t = true ->
  bearer req s = Some t.
Proof.
  intros Hs Ha Hne Hall. unfold bearer, all_star, enter.
  rewrite bind_get_session. cbn [session_token]. rewrite Hs.
  cbv beta iota delta [negb].
  destruct (token_credential_regex_test (authorization req) t) as [Hre Hsub].
  { exists "Token", " "%char. rewrite Ha. repeat split; auto. }
  rewrite Hre, Hsub. reflexivity.
Qed.


(** *** Requests by others than the owner, and for records that are not
    there *)

(** X16: a request for a record with a method other than GET, by someone
    whose token is not the owner's, is answered 401 and leaves the store as
    it was. *)
Theorem stranger_refused (req : request) (s : state) (linkid t : string) :
  req_method req <> GET -> req_path req = Link linkid ->
  String.length linkid = LINKID_LEN ->
  owned_by linkid t (redis s) ->
  bearer req s <> Some t ->
  fst (serve req s) = Failed 401 /\ redis (snd (serve req s)) = redis s.
Proof.
  intros Hm Hp Hlen Hown Hb.
  rewrite serve_routed, Hp, redis_answer.
  rewrite <- (routed_redis req s) in Hown |- *. rewrite <- routed_session in Hb.
  pose proof (all_linkid_stranger req linkid t _ Hm Hown Hb) as Ha.
  pose proof (param_linkid_ok linkid (routed req s) Hlen) as Hparam.
  destruct (req_method req); try contradiction;
    rewrite (bind_return _ _ _ _ _ Hparam), (bind_throw _ _ _ _ _ Ha);
    split; reflexivity.
Qed.


(** *** What no request does to a record *)

(** A create writes under the identifier it drew, which had no url, or
    under the empty key: a record with a url under another key is out of
    its reach. *)
Lemma post_root_keeps_record (req : request) (s : state) (linkid : string) :
  linkid <> "" ->
  Redis.hexists linkid "url" (redis s) <> 0%Z ->
  redis (snd (post_root req s)) !! linkid = redis s !! linkid.
Proof.
  intros Hne Hurl.
  destruct (URL (JS.to_string (url (req_body req))) None) as [href|] eqn:EU.
  - destruct (post_root_written req s href EU) as (r & k & Ea & ->).
    assert (Hkey : linkid <> Ioredis.toArg r).
    { destruct (allocate_result 10 s) as [(j & _ & _ & Hfree & Ea')|[_ Ea']];
        rewrite Ea' in Ea; injection Ea as <- _; [|exact Hne].
      intros ->. unfold collides in Hfree.
      apply negb_false_iff, Z.eqb_eq in Hfree. contradiction. }
    match goal with |- redis (snd (?m ?st)) !! _ = _ =>
      assert (H : only_at (Ioredis.toArg r) m) end.
    { apply only_at_bind; [apply only_at_if_expire|]. intros _.
      apply store_kept_only_at, store_kept_bind; [apply store_kept_new_URL|].
      intros sl. apply store_kept_ret. }
    rewrite (H _ _ Hkey). cbn [redis]. now apply hmset_only_at.
  - unfold post_root, new_URL. rewrite EU. reflexivity.
Qed.

(** HINCRBY leaves the time to live of the key and its fields other than
    the counter as they were, and does not remove the key. *)
Lemma hincrby_keeps (key counter : string) (incr : Z) (db : Redis.store) :
  Redis.lookup_ttl key (snd (Redis.hincrby key counter incr db))
  = Redis.lookup_ttl key db
  /\ (forall field, field <> counter ->
      Redis.hget key field (snd (Redis.hincrby key counter incr db))
      = Redis.hget key field db)
  /\ (is_Some (db !! key) ->
      is_Some (snd (Redis.hincrby key counter incr db) !! key)).
Proof.
  unfold Redis.hincrby.
  destruct (match Redis.lookup_fields key db !! counter with
            | Some v => Redis.string2ll v
            | None => Some 0%Z
            end) as [z|]; [|cbn [snd]; auto].
  match goal with |- context [if ?c then _ else _] => destruct c end;
    cbn [snd]; [auto|].
  split; [|split].
  - unfold Redis.lookup_ttl at 1. now rewrite lookup_insert_eq.
  - intros field Hf. rewrite hget_insert. cbn [Redis.fields].
    now rewrite lookup_insert_ne by congruence.
  - intros _. rewrite lookup_insert_eq. eauto.
Qed.

(** A resolve leaves the time to live of the record and its fields other
    than the counter as they were, and does not remove it. *)
Lemma get_linkid_keeps (linkid : string) (s : state) :
  Redis.lookup_ttl linkid (redis (snd (get_linkid linkid s)))
  = Redis.lookup_ttl linkid (redis s)
  /\ (forall field, field <> "accessed" ->
      Redis.hget linkid field (redis (snd (get_linkid linkid s)))
      = Redis.hget linkid field (redis s))
  /\ (is_Some (redis s !! linkid) ->
      is_Some (redis (snd (get_linkid linkid s)) !! linkid)).
Proof.
  pose proof (hincrby_keeps linkid "accessed" 1 (redis s)) as H.
  unfold get_linkid, command, bind, multi_hincrby_hget.
  destruct (Redis.hincrby linkid "accessed" 1 (redis s)) as [accessed db].
  cbv beta iota. cbn [fst snd] in *. unfold assert.
  destruct (JS.truthy_string (Redis.hget linkid "url" db)); exact H.
Qed.

Lemma lookup_same (linkid : string) (db db' : Redis.store) :
  db' !! linkid = db !! linkid ->
  Redis.lookup_ttl linkid db' = Redis.lookup_ttl linkid db
  /\ (forall field, Redis.hget linkid field db' = Redis.hget linkid field db)
  /\ (is_Some (db !! linkid) -> is_Some (db' !! linkid)).
Proof.
  intros E. unfold Redis.lookup_ttl, Redis.hget, Redis.lookup_fields.
  rewrite E. auto.
Qed.

(** X18: a request by someone whose token is not the owner's cannot alter a
    record: whatever the request, the record is still there afterwards,
    with the same time to live and the same fields, the access count
    apart. *)
Theorem stranger_cannot_alter (req : request) (s : state) (linkid t u : string) :
  record_of linkid t u (redis s) ->
  bearer req s <> Some t ->
  is_Some (redis (snd (serve req s)) !! linkid)
  /\ Redis.lookup_ttl linkid (redis (snd (serve req s)))
     = Redis.lookup_ttl linkid (redis s)
  /\ forall field, field <> "accessed" ->
       Redis.hget linkid field (redis (snd (serve req s)))
       = Redis.hget linkid field (redis s).
Proof.
  intros (Hown & Hurl & Hne) Hb.
  destruct (owned_by_lookup _ _ _ Hown) as [e He].
  assert (Hsome : is_Some (redis s !! linkid)) by (rewrite He; eauto).
  enough (H : Redis.lookup_ttl linkid (redis (snd (serve req s)))
              = Redis.lookup_ttl linkid (redis s)
              /\ (forall field, field <> "accessed" ->
                  Redis.hget linkid field (redis (snd (serve req s)))
                  = Redis.hget linkid field (redis s))
              /\ (is_Some (redis s !! linkid) ->
                  is_Some (redis (snd (serve req s)) !! linkid)))
    by (destruct H as (H1 & H2 & H3); auto).
  destruct (req_path req) as [|l|] eqn:Hp.
  - rewrite serve_routed, Hp, redis_answer.
    destruct (req_method req);
      try (unfold ret; cbn [snd]; rewrite routed_redis; repeat split; auto; fail).
    destruct (lookup_same linkid (redis s) (redis (snd (post_root req (routed req s)))))
      as (H1 & H2 & H3); [|auto].
    transitivity (redis (routed req s) !! linkid); [|now rewrite routed_redis].
    apply post_root_keeps_record; [exact Hne|].
    rewrite routed_redis. unfold Redis.hexists. unfold Redis.hget in Hurl.
    rewrite Hurl. discriminate.
  - destruct (String.eqb_spec linkid l) as [<-|Hl].
    + destruct (req_method req) eqn:Hm.
      * rewrite serve_routed, Hp, Hm, redis_answer.
        rewrite <- (routed_redis req s). generalize (routed req s). intros s0.
        destruct (Nat.eq_dec (String.length linkid) LINKID_LEN) as [Hlen|Hlen].
        -- rewrite (bind_return _ _ _ _ _ (param_linkid_ok _ _ Hlen)).
           apply get_linkid_keeps.
        -- rewrite (bind_throw _ _ _ _ _ (param_linkid_malformed _ _ Hlen)).
           repeat split; auto.
      * destruct (Nat.eq_dec (String.length linkid) LINKID_LEN) as [Hlen|Hlen].
        -- destruct (serve_stranger req s linkid t) as [_ ->]; auto.
           rewrite Hm. discriminate.
        -- rewrite serve_routed, Hp, Hm, redis_answer.
           rewrite (bind_throw _ _ _ _ _ (param_linkid_malformed _ _ Hlen)).
           cbn [snd]. rewrite routed_redis. repeat split; auto.
      * destruct (Nat.eq_dec (String.length linkid) LINKID_LEN) as [Hlen|Hlen].
        -- destruct (serve_stranger req s linkid t) as [_ ->]; auto.
           rewrite Hm. discriminate.
        -- rewrite serve_routed, Hp, Hm, redis_answer.
           rewrite (bind_throw _ _ _ _ _ (param_linkid_malformed _ _ Hlen)).
           cbn [snd]. rewrite routed_redis. repeat split; auto.
      * destruct (Nat.eq_dec (String.length linkid) LINKID_LEN) as [Hlen|Hlen].
        -- destruct (serve_stranger req s linkid t) as [_ ->]; auto.
           rewrite Hm. discriminate.
        -- rewrite serve_routed, Hp, Hm, redis_answer.
           rewrite (bind_throw _ _ _ _ _ (param_linkid_malformed _ _ Hlen)).
           cbn [snd]. rewrite routed_redis. repeat split; auto.
    + destruct (lookup_same linkid (redis s) (redis (snd (serve req s))))
        as (H1 & H2 & H3); [|auto].
      now apply (serve_link_only_at req s l).
  - rewrite serve_routed, Hp, redis_answer. unfold ret. cbn [snd].
    rewrite routed_redis. repeat split; auto.
Qed.

(** A property of the store that holds when a computation that leaves the
    store alone throws, and after what follows it otherwise, holds after
    the two in sequence. *)
Lemma after_kept {A B} (m : M A) (f : A -> M B) (P : Redis.store -> Prop)
    (s : state) :
  store_kept m ->
  P (redis s) ->
  (forall a s1, redis s1 = redis s -> P (redis (snd (f a s1)))) ->
  P (redis (snd (bind m f s))).
Proof.
  intros Hm Hs Hf. unfold bind. specialize (Hm s).
  destruct (m s) as [[a|e] s1]; cbn [snd] in *.
  - now apply Hf.
  - now rewrite Hm.
Qed.

(** The expiry statement keeps a field of the record or removes the
    record. *)
Lemma if_expire_keeps_or_removes (basetime : Z) (key field t : string)
    (e : option JS.value) (s : state) :
  Redis.hget key field (redis s) = Some t ->
  Redis.hget key field (redis (snd (if_expire basetime key e s))) = Some t
  \/ redis (snd (if_expire basetime key e s)) !! key = None.
Proof.
  intros H. destruct (hget_Some_lookup _ _ _ _ H) as [en Hen].
  destruct e as [v|]; [|left; exact H].
  destruct (JS.truthy (Some v)) eqn:Ht.
  - destruct (JS.parse_int (Ioredis.toArg_value v)) as [z|] eqn:Hp.
    + destruct (accepted_seconds basetime z) eqn:Ha.
      * rewrite (if_expire_run basetime key v z en s Ht Hp Ha Hen).
        cbn [snd redis]. destruct (z <=? 0)%Z.
        -- right. apply lookup_delete_eq.
        -- left. rewrite hget_insert. cbn [Redis.fields].
           unfold Redis.hget, Redis.lookup_fields in H. now rewrite Hen in H.
      * destruct (if_expire_refused basetime key v z s Ht Hp Ha) as [m ->].
        left. exact H.
    + left. unfold if_expire. rewrite Ht. monad_unfold. unfold Redis.expire.
      rewrite (string2ll_None _ Hp). exact H.
  - left. unfold if_expire. rewrite Ht. exact H.
Qed.

Lemma patch_linkid_token (req : request) (linkid t : string) (s : state) :
  Redis.hget linkid "token" (redis s) = Some t ->
  Redis.hget linkid "token" (redis (snd (patch_linkid req linkid s))) = Some t
  \/ redis (snd (patch_linkid req linkid s)) !! linkid = None.
Proof.
  intros H. unfold patch_linkid.
  assert (Hfirst : exists r s1,
             (match url (req_body req) with
              | Some u =>
                  if JS.truthy_string (url (req_body req))
                  then (_ <- new_URL u None;;
                        _ <- command (Redis.hset linkid "url" u);; ret tt)
                  else ret tt
              | None => ret tt
              end) s = (r, s1)
             /\ Redis.hget linkid "token" (redis s1) = Some t).
  { destruct (url (req_body req)) as [u|]; [|do 2 eexists; split; [reflexivity|exact H]].
    destruct (JS.truthy_string (Some u));
      [|do 2 eexists; split; [reflexivity|exact H]].
    unfold new_URL. destruct (URL u None).
    - unfold bind, ret, command, Redis.hset.
      do 2 eexists. split; [reflexivity|]. cbn [redis].
      rewrite hget_insert. cbn [Redis.fields].
      now rewrite lookup_insert_ne by discriminate.
    - do 2 eexists. split; [reflexivity|exact H]. }
  destruct Hfirst as (r & s1 & E & H1).
  destruct r as [[]|e].
  - rewrite (bind_return _ _ _ _ _ E).
    pose proof (if_expire_keeps_or_removes (clock req) linkid "token" t
                  (expire (req_body req)) s1 H1) as Hexp.
    destruct (if_expire (clock req) linkid (expire (req_body req)) s1)
      as [[[]|e] s2] eqn:Ee.
    + rewrite (bind_return _ _ _ _ _ Ee). exact Hexp.
    + rewrite (bind_throw _ _ _ _ _ Ee). exact Hexp.
  - rewrite (bind_throw _ _ _ _ _ E). left. exact H1.
Qed.

(** X19: no request whose body has a string for [url], or no [url], changes
    the owner's token of a record: after the request the record has the
    token it had, or is gone. *)
Theorem token_never_changes (req : request) (s : state) (linkid t u : string) :
  record_of linkid t u (redis s) ->
  Redis.hget linkid "token" (redis (snd (serve req s))) = Some t
  \/ redis (snd (serve req s)) !! linkid = None.
Proof.
  intros ((Htok & _) & Hurl & Hne).
  destruct (req_path req) as [|l|] eqn:Hp.
  - left. rewrite serve_routed, Hp, redis_answer.
    destruct (req_method req);
      try (unfold ret; cbn [snd]; now rewrite routed_redis).
    unfold Redis.hget, Redis.lookup_fields.
    rewrite post_root_keeps_record; [now rewrite routed_redis|exact Hne|].
    rewrite routed_redis. unfold Redis.hexists. unfold Redis.hget in Hurl.
    rewrite Hurl. discriminate.
  - destruct (String.eqb_spec linkid l) as [<-|Hl].
    + rewrite serve_routed, Hp, redis_answer.
      rewrite <- (routed_redis req s) in Htok.
      generalize dependent (routed req s). intros s0 Htok.
      destruct (req_method req).
      * apply after_kept; [apply store_kept_param_linkid|now left|].
        intros _ s1 E1. left.
        destruct (get_linkid_keeps linkid s1) as (_ & Hf & _).
        rewrite Hf by discriminate. now rewrite E1.
      * apply after_kept; [apply store_kept_param_linkid|now left|].
        intros _ s1 E1.
        apply after_kept; [apply store_kept_all_linkid|left; now rewrite E1|].
        intros _ s2 E2. left. unfold ret. cbn [snd]. now rewrite E2, E1.
      * apply after_kept; [apply store_kept_param_linkid|now left|].
        intros _ s1 E1.
        apply after_kept; [apply store_kept_all_linkid|left; now rewrite E1|].
        intros _ s2 E2.
        apply after_kept; [apply store_kept_param_linkid|left; now rewrite E2, E1|].
        intros _ s3 E3. apply patch_linkid_token. now rewrite E3, E2, E1.
      * apply after_kept; [apply store_kept_param_linkid|now left|].
        intros _ s1 E1.
        apply after_kept; [apply store_kept_all_linkid|left; now rewrite E1|].
        intros _ s2 E2.
        apply after_kept; [apply store_kept_param_linkid|left; now rewrite E2, E1|].
        intros _ s3 E3. right.
        unfold delete_linkid, bind, command, ret, Redis.unlink.
        destruct (hget_Some_lookup _ _ _ _ Htok) as [en Hen].
        rewrite E3, E2, E1, Hen. cbn [snd redis]. apply lookup_delete_eq.
    + left. unfold Redis.hget, Redis.lookup_fields.
      now rewrite (serve_link_only_at req s l linkid Hp Hl).
  - left. rewrite serve_routed, Hp, redis_answer. unfold ret. cbn [snd].
    now rewrite routed_redis.
Qed.

(** X20: a create with a valid url, whose [expire] is absent, falsy or a
    positive number of seconds the store accepts, takes the first of its
    draws that has no url in the store: when the first [j] identifiers
    drawn collide, the next is free and the short link can be built, the
    request is answered 201 with that identifier, and exactly [j + 1]
    identifiers have been drawn. *)
Theorem create_takes_first_free (req : request) (s : state) (j : nat)
    (href shortLink : string) :
  req_method req = POST -> req_path req = Root ->
  URL (JS.to_string (url (req_body req))) None = Some href ->
  j < 10 ->
  (forall i, i < j -> collides (routed req s) i = true) ->
  collides (routed req s) j = false ->
  live_expire_at (clock req) (expire (req_body req)) = true ->
  URL (candidate (routed req s) j) (Some (base_url req)) = Some shortLink ->
  fst (serve req s)
  = Created (url (req_body req)) shortLink (Some (candidate (routed req s) j))
      (bearer req s)
  /\ rng (snd (serve req s)) = rng (routed req s) + LINKID_LEN * S j.
Proof.
  intros Hm Hp EU Hj Hbefore Hfree Hlive ES.
  rewrite serve_routed, Hp, Hm, fst_answer, rng_answer. rewrite <- routed_session.
  revert Hbefore Hfree ES. generalize (routed req s). intros s0 Hbefore Hfree ES.
  destruct (post_root_written req s0 href EU) as (r & k & Ea & ->).
  rewrite (allocate_free 10 j s0 Hj Hbefore Hfree) in Ea.
  injection Ea as <- Hk.
  match goal with |- context [bind (if_expire ?b ?key ?e) _ ?st] =>
    destruct (if_expire_live_at b key e st Hlive) as (db & Ee & _) end.
  rewrite (bind_return _ _ _ _ _ Ee). unfold new_URL. cbn [JS.to_string].
  rewrite ES. unfold bind, ret. cbn [fst snd respond rng].
  split; [reflexivity|]. unfold LINKID_LEN in *. lia.
Qed.

(** *** The earlier version *)

(** X21: every Authorization header the earlier test of the header accepted
    is accepted by the present one. *)
Theorem legacy_token_header_still_accepted (auth : string) :
  legacy_token_regex_test auth = true -> token_regex_test auth = true.
Proof.
  unfold legacy_token_regex_test, token_regex_test.
  destruct (literal_nocase "token" auth) as [[|c rest]|]; try discriminate.
  intros [[Hsp Hne]%andb_prop Hall]%andb_prop.
  rewrite Hsp, Hne. simpl.
  apply all_chars_impl with (p := JS.is_word); [apply word_not_space|exact Hall].
Qed.

(** X22: for a DELETE the earlier handler and the present layers agree on
    every record that has an owner's token: same answer, same store.  They
    differ on an identifier without a token, which the earlier handler
    answered 401 and the present layers answer 404. *)
Theorem legacy_delete_agrees_on_records (req : request) (linkid : string)
    (s : state) :
  req_method req = DELETE ->
  (JS.truthy_string (Redis.hget linkid "token" (redis s)) = true ->
   respond (legacy_delete_linkid linkid s)
   = respond ((param_linkid linkid;;; all_linkid req linkid;;;
               param_linkid linkid;;; delete_linkid linkid) s))
  /\ (String.length linkid = LINKID_LEN ->
      Redis.hget linkid "token" (redis s) = None ->
      respond (legacy_delete_linkid linkid s) = (Failed 401, s)
      /\ respond ((param_linkid linkid;;; all_linkid req linkid;;;
                   param_linkid linkid;;; delete_linkid linkid) s)
         = (Failed 404, s)).
Proof.
  intros Hm. unfold legacy_delete_linkid, all_linkid, param_linkid. rewrite Hm.
  split.
  - intros Ht. monad_unfold. cbv beta iota.
    destruct (String.length linkid =? LINKID_LEN)%nat; [|reflexivity].
    cbv beta iota. rewrite Ht. cbv beta iota.
    destruct (strict_eq (Redis.hget linkid "token" (redis s)) (session_token s));
      reflexivity.
  - intros Hlen Hnone. monad_unfold. cbv beta iota.
    rewrite Hlen, Nat.eqb_refl. cbv beta iota. rewrite Hnone.
    split; reflexivity.
Qed.

End Server.

(** ** Concrete runs *)

Import Sample.

(** The server of the runs, with the stand-ins of [Sample] for its
    parameters. *)
Abbreviation run := (serve URL random port String_of_reply).
Abbreviation run_all := (serve_all URL random port String_of_reply).
Abbreviation run_stuck := (serve URL stuck port String_of_reply).

(** The first test of the suite: a create on an empty store. *)
Example post_creates :
  run (post TEST_LINK None) empty
  = (Created (Some TEST_LINK) "http://localhost:3000/5VDLfvt" (Some linkid)
       (Some token), created).
Proof. vm_compute. reflexivity. Qed.

Example post_creates_stuck :
  run_stuck (post TEST_LINK None) empty
  = (Created (Some TEST_LINK) "http://localhost:3000/uuuuuuu" (Some "uuuuuuu")
       (Some "uuuuuuuuuuuuuuuuuuuuuuuuuuuuuu"), taken).
Proof. vm_compute. reflexivity. Qed.

(** A time to live of one second set by the owner, and a resolve two
    seconds later. *)
Example expire_then_gone :
  let patched :=
    snd (run
           (patch linkid ("Token " +:+ token) (Body None None (Some (JS.Num 1))))
           created) in
  Redis.lookup_ttl linkid (redis patched) = Some 1%Z
  /\ fst (run (get linkid)
            (State None (Redis.elapse 2 (redis patched)) (rng patched)))
     = Failed 404.
Proof. vm_compute. split; reflexivity. Qed.

(** C1: a GET for the well-formed identifier [1234567] on an empty store is
    answered 404, and yet the store is not left as it was: the increment
    has created a record under the identifier, with a counter of 1 and no
    url. *)
Theorem get_absent_writes_counter :
  redis empty !! "1234567" = None
  /\ fst (run (get "1234567") empty) = Failed 404
  /\ redis (snd (run (get "1234567") empty))
     = {[ "1234567" := phantom ]}
  /\ redis (snd (run (get "1234567") empty)) <> redis empty.
Proof.
  split; [reflexivity|].
  destruct (serve_get_absent URL random port String_of_reply
           (get "1234567") empty "1234567")
    as [Hr Hdb]; [split; reflexivity | reflexivity | reflexivity |].
  split; [exact Hr|]. rewrite Hdb. split; [reflexivity|].
  intros H. apply (f_equal (fun db => db !! "1234567")) in H.
  rewrite lookup_insert_eq in H. discriminate.
Qed.

(** C2: with every one of the ten identifiers drawn taken, the create does
    not fail: it is answered 201 without an identifier, and the record is
    written under the empty key, the key sent for [undefined]. *)
Theorem post_exhausted_answers_created :
  (forall i, i < 10 -> collides stuck taken i = true)
  /\ fst (run_stuck (post TEST_LINK None) taken)
     = Created (Some TEST_LINK) "http://localhost:3000/undefined" None
         (Some "uuuuuuuuuuuuuuuuuuuuuuuuuuuuuu")
  /\ status (fst (run_stuck (post TEST_LINK None) taken)) = 201
  /\ Redis.hget "" "url" (redis (snd (run_stuck (post TEST_LINK None) taken)))
     = Some TEST_LINK.
Proof.
  split.
  - intros i Hi. do 10 (destruct i as [|i]; [vm_compute; reflexivity|]). lia.
  - vm_compute. repeat split; reflexivity.
Qed.



(** C4 fails as stated: the second DELETE of a record by its owner is
    answered 404, not 200 with [removed: 0]. *)
Lemma delete_again_counterexample :
  let del := remove linkid ("Token " +:+ token) in
  owned_by linkid token (redis created)
  /\ fst (run del created) = Removed 1
  /\ fst (run del (snd (run del created)))
     = Failed 404
  /\ fst (run del (snd (run del created)))
     <> Removed 0.
Proof.
  vm_compute. repeat split; try reflexivity; discriminate.
Qed.

(** The fourth test of the suite, with the DELETE sent twice. *)
Lemma delete_then_not_found_witness :
  let del := remove linkid ("Token " +:+ token) in
  fst (run del created) = Removed 1
  /\ redis (snd (run del created)) = delete linkid (redis created)
  /\ fst (run del (snd (run del created)))
     = Failed 404
  /\ redis (snd (run del (snd (run del created))))
     = delete linkid (redis created).
Proof.
  apply (delete_then_not_found URL random port String_of_reply
           (remove linkid ("Token " +:+ token)) (remove linkid ("Token " +:+ token))
           created linkid token).
  - reflexivity.
  - reflexivity.
  - reflexivity.
  - split; [vm_compute; reflexivity | discriminate].
  - vm_compute. reflexivity.
  - reflexivity.
  - reflexivity.
Defined.

(** C5 fails as stated: a create with a url that is not one is answered
    500, not 422. *)
Lemma post_invalid_url_counterexample :
  URL "not a url" None = None
  /\ status (fst (run (post "not a url" None) empty)) = 500
  /\ status (fst (run (post "not a url" None) empty)) <> 422.
Proof. vm_compute. repeat split; try reflexivity; discriminate. Qed.

(** A create with a url that is not one, against the store of the first
    test. *)
Lemma post_invalid_url_fails_witness :
  fst (run (post "not a url" None) created) = Failed 500
  /\ redis (snd (run (post "not a url" None) created))
     = redis created.
Proof.
  apply (post_invalid_url_fails URL random port String_of_reply
           (post "not a url" None) created).
  - reflexivity.
  - reflexivity.
  - reflexivity.
Defined.

(** The fourth test of the suite: a DELETE without a token, then one with
    the token of the create. *)
Lemma delete_stranger_refused_witness :
  let stranger := remove linkid "" in
  let owner := remove linkid ("Token " +:+ token) in
  fst (run stranger created) = Failed 401
  /\ redis (snd (run stranger created)) = redis created
  /\ fst (run owner (snd (run stranger created)))
     = Removed 1
  /\ redis (snd (run owner
                   (snd (run stranger created))))
     = delete linkid (redis created).
Proof.
  apply (delete_stranger_refused URL random port String_of_reply
           (remove linkid "") (remove linkid ("Token " +:+ token))
           created linkid token).
  - reflexivity.
  - reflexivity.
  - reflexivity.
  - split; [vm_compute; reflexivity | discriminate].
  - vm_compute. discriminate.
  - reflexivity.
  - reflexivity.
  - vm_compute. reflexivity.
Defined.

(** C7 fails as stated: a PATCH by the owner with a valid url and an expire
    value that is not a number of seconds fails, and the url has been
    replaced all the same. *)
Lemma patch_partial_counterexample :
  let req := patch linkid ("Token " +:+ token)
               (Body (Some "https://github.com/walletpass") None
                  (Some (JS.Str "soon"))) in
  Redis.hget linkid "url" (redis created) = Some TEST_LINK
  /\ fst (run req created) = Failed 500
  /\ Redis.hget linkid "url" (redis (snd (run req created)))
     = Some "https://github.com/walletpass"
  /\ redis (snd (run req created)) <> redis created.
Proof.
  intros req.
  assert (H : Redis.hget linkid "url" (redis (snd (run req created)))
              = Some "https://github.com/walletpass") by (vm_compute; reflexivity).
  split; [vm_compute; reflexivity|]. split; [vm_compute; reflexivity|].
  split; [exact H|].
  intros E. rewrite E in H. vm_compute in H. discriminate H.
Qed.

(** A PATCH by the owner with a url that is not one and an hour to live. *)
Lemma patch_invalid_url_changes_nothing_witness :
  let req := patch linkid ("Token " +:+ token)
               (Body (Some "walletpass") None (Some (JS.Num 3600))) in
  fst (run req created) = Failed 500
  /\ redis (snd (run req created)) = redis created.
Proof.
  apply (patch_invalid_url_changes_nothing URL random port String_of_reply
           (patch linkid ("Token " +:+ token)
              (Body (Some "walletpass") None (Some (JS.Num 3600))))
           created linkid token "walletpass").
  - reflexivity.
  - reflexivity.
  - reflexivity.
  - split; [vm_compute; reflexivity | discriminate].
  - vm_compute. reflexivity.
  - reflexivity.
  - discriminate.
  - reflexivity.
Defined.

(** C8 fails as stated: an identifier of 7 characters with one outside the
    URL-safe alphabet passes the check; the GET is answered 404, not 422,
    after the store has been written to. *)
Lemma malformed_alphabet_counterexample :
  String.length "abc.def" = 7
  /\ JS.all_chars Nanoid.url_safe "abc.def" = false
  /\ fst (run (get "abc.def") empty) = Failed 404
  /\ redis (snd (run (get "abc.def") empty))
     = {[ "abc.def" := phantom ]}.
Proof. vm_compute. repeat split; reflexivity. Qed.

(** A GET for an identifier of three characters. *)
Lemma malformed_length_rejected_witness :
  fst (run (get "abc") created) = Failed 422
  /\ redis (snd (run (get "abc") created)) = redis created.
Proof.
  apply (malformed_length_rejected URL random port String_of_reply
           (get "abc") created "abc").
  - reflexivity.
  - vm_compute. discriminate.
Defined.

(** The three ways to a session token: one carried by the session, one
    taken from the header, one drawn afresh. *)
Lemma session_token_resolution_witness :
  all_star random (get linkid) created = (Return tt, created)
  /\ (exists value,
        token_credential "ToKeN abc" value
        /\ all_star random (remove linkid "ToKeN abc") empty
           = (Return tt, State (Some value) ∅ 0))
  /\ (exists fresh,
        all_star random (remove linkid "Bearer abc") empty
        = (Return tt, State (Some fresh) ∅ 30)
        /\ fresh = Nanoid.generate random 0 30
        /\ String.length fresh = 30
        /\ JS.all_chars Nanoid.url_safe fresh = true).
Proof.
  split; [|split].
  - apply (proj1 (session_token_resolution random (get linkid) created)).
    reflexivity.
  - apply (proj1 (proj2 (session_token_resolution random
                           (remove linkid "ToKeN abc") empty)));
      reflexivity.
  - apply (proj2 (proj2 (session_token_resolution random
                           (remove linkid "Bearer abc") empty)));
      reflexivity.
Defined.

(** A PATCH by the owner with an empty body. *)
Lemma patch_nothing_changes_witness :
  let req := patch linkid ("Token " +:+ token) (Body None None None) in
  fst (run req created) = Success
  /\ redis (snd (run req created)) = redis created.
Proof.
  apply (patch_nothing_changes URL random port String_of_reply
           (patch linkid ("Token " +:+ token) (Body None None None))
           created linkid token).
  - reflexivity.
  - reflexivity.
  - reflexivity.
  - split; [vm_compute; reflexivity | discriminate].
  - vm_compute. reflexivity.
  - reflexivity.
  - reflexivity.
Defined.

(** ** Concrete runs of the further properties *)

(** The owner's DELETE of one record leaves the other record where it
    is. *)
Lemma link_request_keeps_other_keys_witness :
  redis (snd (run (remove linkid ("Token " +:+ token)) two_records))
    !! other_linkid
  = redis two_records !! other_linkid.
Proof.
  apply (link_request_keeps_other_keys URL random port String_of_reply
           (remove linkid ("Token " +:+ token)) two_records linkid other_linkid).
  - reflexivity.
  - discriminate.
Defined.

(** A DELETE without a token is answered 401. *)
Lemma refusal_keeps_store_witness :
  redis (snd (run (remove linkid "") created)) = redis created.
Proof.
  apply (refusal_keeps_store URL random port String_of_reply
           (remove linkid "") created).
  left. vm_compute. reflexivity.
Defined.

(** The first resolve of the record of the first test. *)
Lemma resolve_changes_counter_only_witness :
  redis (snd (run (get linkid) created))
  = <[linkid := Redis.Entry
                  (<["accessed" := "1"]> (Redis.fields (record TEST_LINK token)))
                  None]> (redis created).
Proof.
  apply (resolve_changes_counter_only URL random port String_of_reply
           (get linkid) created linkid
           (record TEST_LINK token) 0).
  - split; reflexivity.
  - reflexivity.
  - vm_compute. reflexivity.
  - vm_compute. reflexivity.
  - vm_compute. split; [discriminate | reflexivity].
Defined.

(** A resolve with the owner's token in the header, and one within the
    session of somebody else after other random bytes were drawn. *)
Lemma resolve_ignores_credentials_witness :
  let g1 := Request GET (Link linkid) ("Token " +:+ token) (Body None None None)
              None "Tue Nov 03 2026" basetime in
  let g2 := Request GET (Link linkid) "" (Body None None None)
              (Some "somebody-else") "Wed Nov 04 2026" basetime in
  let later := State None (redis created) 99 in
  fst (run g1 created) = fst (run g2 later)
  /\ redis (snd (run g1 created))
     = redis (snd (run g2 later)).
Proof.
  apply (resolve_ignores_credentials URL random port String_of_reply
           (Request GET (Link linkid) ("Token " +:+ token) (Body None None None)
              None "Tue Nov 03 2026" basetime)
           (Request GET (Link linkid) "" (Body None None None)
              (Some "somebody-else") "Wed Nov 04 2026" basetime)
           created (State None (redis created) 99) linkid).
  - split; reflexivity.
  - split; reflexivity.
  - reflexivity.
Defined.

(** The create of the first test. *)
Lemma create_returns_fresh_identifier_witness :
  Redis.hexists linkid "url" (redis empty) = 0%Z
  /\ String.length linkid = LINKID_LEN
  /\ JS.all_chars Nanoid.url_safe linkid = true
  /\ Some token = bearer random (post TEST_LINK None) empty
  /\ Some TEST_LINK = url (req_body (post TEST_LINK None))
  /\ URL linkid (Some (base_url port (post TEST_LINK None)))
     = Some "http://localhost:3000/5VDLfvt".
Proof.
  apply (create_returns_fresh_identifier URL random port String_of_reply
           (post TEST_LINK None) empty
           (Some TEST_LINK) "http://localhost:3000/5VDLfvt" linkid (Some token)).
  - reflexivity.
  - reflexivity.
  - vm_compute. reflexivity.
Defined.

Lemma create_writes_record_witness :
  let after := redis (snd (run (post TEST_LINK None) empty)) in
  Redis.hget linkid "url" after = Some TEST_LINK
  /\ Redis.hget linkid "baseUrl" after = Some "http://localhost:3000"
  /\ Redis.hget linkid "accessed" after = Some "0"
  /\ Redis.hget linkid "createdAt" after = Some "Tue Nov 03 2026"
  /\ Redis.hget linkid "token" after
     = Some (Ioredis.toArg (bearer random (post TEST_LINK None) empty))
  /\ forall k, k <> linkid -> after !! k = redis empty !! k.
Proof.
  apply (create_writes_record URL random port String_of_reply
           (post TEST_LINK None) empty
           TEST_LINK "http://localhost:3000/5VDLfvt" linkid (Some token)).
  - reflexivity.
  - reflexivity.
  - reflexivity.
  - vm_compute. reflexivity.
Defined.

(** A create with an hour to live. *)
Lemma create_sets_time_to_live_witness :
  Redis.lookup_ttl linkid
    (redis (snd (run (post TEST_LINK (Some (JS.Num 3600))) empty)))
  = Some 3600%Z.
Proof.
  apply (create_sets_time_to_live URL random port String_of_reply
           (post TEST_LINK (Some (JS.Num 3600))) empty (JS.Num 3600) 3600
           (Some TEST_LINK) "http://localhost:3000/5VDLfvt" linkid (Some token)).
  - reflexivity.
  - reflexivity.
  - reflexivity.
  - reflexivity.
  - vm_compute. reflexivity.
  - lia.
  - vm_compute. reflexivity.
Defined.

(** A create with [expire: -1]. *)
Lemma create_expired_at_once_witness :
  redis (snd (run (post TEST_LINK (Some (JS.Num (-1)))) empty))
    !! linkid = None.
Proof.
  apply (create_expired_at_once URL random port String_of_reply
           (post TEST_LINK (Some (JS.Num (-1)))) empty (JS.Num (-1)) (-1)
           (Some TEST_LINK) "http://localhost:3000/5VDLfvt" linkid (Some token)).
  - reflexivity.
  - reflexivity.
  - reflexivity.
  - reflexivity.
  - vm_compute. reflexivity.
  - lia.
  - vm_compute. reflexivity.
Defined.

(** A create with a base url that is not one. *)
Lemma create_fails_after_write_witness :
  let req := Request POST Root "" (Body (Some TEST_LINK) (Some "junk") None) None
               "Tue Nov 03 2026" basetime in
  fst (run req empty) = Failed 500
  /\ Redis.hget (candidate random (routed random req empty) 0) "url"
       (redis (snd (run req empty)))
     = Some TEST_LINK
  /\ Redis.hget (candidate random (routed random req empty) 0) "token"
       (redis (snd (run req empty)))
     = Some (Ioredis.toArg (bearer random req empty)).
Proof.
  apply (create_fails_after_write URL random port String_of_reply
           (Request POST Root "" (Body (Some TEST_LINK) (Some "junk") None) None
              "Tue Nov 03 2026" basetime)
           empty TEST_LINK 0).
  - reflexivity.
  - reflexivity.
  - reflexivity.
  - lia.
  - intros i Hi. lia.
  - vm_compute. reflexivity.
  - reflexivity.
  - vm_compute. reflexivity.
Defined.

(** The update of the fifth test, the url alone. *)
Lemma patch_replaces_url_only_witness :
  let req := patch linkid ("Token " +:+ token)
               (Body (Some "https://github.com/walletpass") None None) in
  fst (run req created) = Success
  /\ redis (snd (run req created))
     = <[linkid := Redis.Entry
                     (<["url" := "https://github.com/walletpass"]>
                        (Redis.fields (record TEST_LINK token)))
                     None]> (redis created).
Proof.
  apply (patch_replaces_url_only URL random port String_of_reply
           (patch linkid ("Token " +:+ token)
              (Body (Some "https://github.com/walletpass") None None))
           created linkid token "https://github.com/walletpass"
           (record TEST_LINK token)).
  - reflexivity.
  - reflexivity.
  - reflexivity.
  - split; [vm_compute; reflexivity | discriminate].
  - vm_compute. reflexivity.
  - vm_compute. reflexivity.
  - reflexivity.
  - discriminate.
  - vm_compute. discriminate.
  - reflexivity.
Defined.

(** The update of the fifth test, the time to live alone. *)
Lemma patch_sets_time_to_live_witness :
  let req := patch linkid ("Token " +:+ token) (Body None None (Some (JS.Num 1))) in
  fst (run req created) = Success
  /\ redis (snd (run req created))
     = <[linkid := Redis.Entry (Redis.fields (record TEST_LINK token)) (Some 1%Z)]>
         (redis created).
Proof.
  apply (patch_sets_time_to_live URL random port String_of_reply
           (patch linkid ("Token " +:+ token) (Body None None (Some (JS.Num 1))))
           created linkid token (record TEST_LINK token) (JS.Num 1) 1).
  - reflexivity.
  - reflexivity.
  - reflexivity.
  - split; [vm_compute; reflexivity | discriminate].
  - vm_compute. reflexivity.
  - vm_compute. reflexivity.
  - reflexivity.
  - reflexivity.
  - reflexivity.
  - vm_compute. reflexivity.
  - lia.
  - vm_compute. reflexivity.
Defined.

Lemma patch_then_resolve_witness :
  let req := patch linkid ("Token " +:+ token)
               (Body (Some "https://github.com/walletpass") None None) in
  fst (run (get linkid) (snd (run req created)))
  = MovedPermanently "https://github.com/walletpass" "1".
Proof.
  apply (patch_then_resolve URL random port String_of_reply (fun z _ => eq_refl)
           (patch linkid ("Token " +:+ token)
              (Body (Some "https://github.com/walletpass") None None))
           (get linkid) created linkid token "https://github.com/walletpass" 0).
  - reflexivity.
  - reflexivity.
  - reflexivity.
  - split; [vm_compute; reflexivity | discriminate].
  - vm_compute. reflexivity.
  - vm_compute. reflexivity.
  - vm_compute. split; [discriminate | reflexivity].
  - reflexivity.
  - discriminate.
  - vm_compute. discriminate.
  - reflexivity.
  - split; reflexivity.
Defined.

(** The fifth test: a new url and a second to live, and a resolve two
    seconds later. *)
Lemma expired_record_not_found_witness :
  let req := patch linkid ("Token " +:+ token)
               (Body (Some "https://github.com/walletpass") None
                  (Some (JS.Num 1))) in
  fst (run req created) = Success
  /\ fst (run (get linkid)
            (State None
               (Redis.elapse 2
                  (redis (snd (run req created))))
               37))
     = Failed 404.
Proof.
  apply (expired_record_not_found URL random port String_of_reply
           (patch linkid ("Token " +:+ token)
              (Body (Some "https://github.com/walletpass") None
                 (Some (JS.Num 1))))
           (get linkid) created
           (State None
              (Redis.elapse 2
                 (redis (snd (run
                                (patch linkid ("Token " +:+ token)
                                   (Body (Some "https://github.com/walletpass")
                                      None (Some (JS.Num 1))))
                                created))))
              37)
           linkid token (JS.Num 1) 1 2).
  - reflexivity.
  - reflexivity.
  - reflexivity.
  - split; [vm_compute; reflexivity | discriminate].
  - vm_compute. reflexivity.
  - intros u [= <-] _. vm_compute. discriminate.
  - reflexivity.
  - reflexivity.
  - vm_compute. reflexivity.
  - lia.
  - vm_compute. reflexivity.
  - reflexivity.
  - split; reflexivity.
Defined.


(** An update without a token. *)
Lemma stranger_refused_witness :
  let req := patch linkid "" (Body (Some "https://github.com/walletpass") None None) in
  fst (run req created) = Failed 401
  /\ redis (snd (run req created)) = redis created.
Proof.
  apply (stranger_refused URL random port String_of_reply
           (patch linkid "" (Body (Some "https://github.com/walletpass") None None))
           created linkid token).
  - discriminate.
  - reflexivity.
  - reflexivity.
  - split; [vm_compute; reflexivity | discriminate].
  - vm_compute. discriminate.
Defined.


(** A resolve by somebody else: the count goes up, nothing else moves. *)
Lemma stranger_cannot_alter_witness :
  let after := redis (snd (run (get linkid) created)) in
  is_Some (after !! linkid)
  /\ Redis.lookup_ttl linkid after = Redis.lookup_ttl linkid (redis created)
  /\ forall field, field <> "accessed" ->
       Redis.hget linkid field after = Redis.hget linkid field (redis created).
Proof.
  apply (stranger_cannot_alter URL random port String_of_reply
           (get linkid) created linkid token
           TEST_LINK).
  - split; [split; [vm_compute; reflexivity | discriminate]|].
    split; [vm_compute; reflexivity | discriminate].
  - vm_compute. discriminate.
Defined.

(** The owner's update of the url. *)
Lemma token_never_changes_witness :
  let req := patch linkid ("Token " +:+ token)
               (Body (Some "https://github.com/walletpass") None None) in
  Redis.hget linkid "token" (redis (snd (run req created)))
  = Some token
  \/ redis (snd (run req created)) !! linkid = None.
Proof.
  apply (token_never_changes URL random port String_of_reply
           (patch linkid ("Token " +:+ token)
              (Body (Some "https://github.com/walletpass") None None))
           created linkid token TEST_LINK).
  split; [split; [vm_compute; reflexivity | discriminate]|].
  split; [vm_compute; reflexivity | discriminate].
Defined.

Lemma legacy_token_header_still_accepted_witness :
  token_regex_test "Token abc_123" = true.
Proof.
  apply (legacy_token_header_still_accepted "Token abc_123").
  reflexivity.
Defined.

(** A DELETE by the owner within the session, and one of an identifier
    nobody created. *)
Lemma legacy_delete_agrees_on_records_witness :
  respond (legacy_delete_linkid linkid created)
  = respond ((param_linkid linkid;;; all_linkid (remove linkid "") linkid;;;
              param_linkid linkid;;; delete_linkid linkid) created)
  /\ respond (legacy_delete_linkid "1234567" created) = (Failed 401, created)
  /\ respond ((param_linkid "1234567";;; all_linkid (remove "1234567" "") "1234567";;;
               param_linkid "1234567";;; delete_linkid "1234567") created)
     = (Failed 404, created).
Proof.
  split.
  - apply (proj1 (legacy_delete_agrees_on_records (remove linkid "") linkid created
                    eq_refl)).
    vm_compute. reflexivity.
  - apply (proj2 (legacy_delete_agrees_on_records (remove "1234567" "") "1234567"
                    created eq_refl)).
    + reflexivity.
    + vm_compute. reflexivity.
Defined.

(** The sixth test of the suite: the first identifier drawn is taken, the
    second is free. *)
Lemma create_takes_first_free_witness :
  let taken_once := State None (redis created) 0 in
  fst (run (post TEST_LINK None) taken_once)
  = Created (Some TEST_LINK) "http://localhost:3000/o97KNOb" (Some "o97KNOb")
      (Some token)
  /\ rng (snd (run (post TEST_LINK None) taken_once)) = 30 + 7 * 2.
Proof.
  apply (create_takes_first_free URL random port String_of_reply (post TEST_LINK None)
           (State None (redis created) 0) 1 TEST_LINK
           "http://localhost:3000/o97KNOb").
  - reflexivity.
  - reflexivity.
  - reflexivity.
  - lia.
  - intros i Hi. assert (i = 0) as -> by lia. vm_compute. reflexivity.
  - vm_compute. reflexivity.
  - reflexivity.
  - vm_compute. reflexivity.
Defined.

(** The session middleware on a request with a header, and on a later one
    with another header. *)
Lemma session_token_sticks_witness :
  let first := snd (all_star random (remove linkid "ToKeN abc") empty) in
  JS.truthy_string (session_token first) = true
  /\ all_star random (remove linkid "Token other") first = (Return tt, first).
Proof.
  apply (session_token_sticks random (remove linkid "ToKeN abc")
           (remove linkid "Token other") empty).
Defined.
